(** * routine.py: instance health check, retirement and AMI clean-up

    A shallow embedding of [routine.py] and the properties of its
    functions.  The script talks to three outside parties: the EC2
    provider (boto3), the network (socket, requests) and the clock.  Every
    call to one of them is recorded, in order, in a trace of events; what
    the outside party answers is given by an environment whose functions
    see the trace so far, so that the same call may be answered
    differently at different moments of a run.

    The first line of the script selects [python], which is Python 2 on
    some systems and Python 3 on others, and nothing in the script asks
    for one of them.  The two differ in two places of [format_as_table]:
    [zip] (line 300) builds a list under Python 2 and a one-shot iterator
    under Python 3, and [sorted] (line 275) orders values of different
    types under Python 2 and raises [TypeError] on them under Python 3.
    The interpreter is therefore a parameter of the model. *)

From Stdlib Require Import ZArith Ascii.
From stdpp Require Import gmap strings list pretty.

Local Open Scope string_scope.
Local Open Scope Z_scope.
Local Open Scope list_scope.

(** ** Python values and exceptions *)

(** The interpreter that runs the script. *)
Inductive python : Type := Py2 | Py3.

#[global] Instance python_eq_dec : EqDecision python.
Proof. solve_decision. Defined.

(** The values that occur in the dictionaries of the script: [None],
    booleans, integers and strings. *)
Inductive pyvalue : Type :=
| VNone
| VBool (b : bool)
| VInt (n : Z)
| VStr (s : string).

#[global] Instance pyvalue_eq_dec : EqDecision pyvalue.
Proof. solve_decision. Defined.

(** The exception classes the script names or can meet.  [Timeout],
    [ConnectionError], [ConnectTimeout], [ReadTimeout] and
    [TooManyRedirects] are those of [requests.exceptions]; [ClientError],
    [ParamValidationError] and [WaiterError] those of
    [botocore.exceptions]; [Gaierror] is [socket.gaierror]. *)
Inductive exc : Type :=
| BaseException | KeyboardInterrupt | Exception
| TypeError | ValueError | KeyError | UnboundLocalError | OverflowError
| Gaierror
| ClientError | ParamValidationError | WaiterError
| RequestException | ConnectionError | Timeout
| ConnectTimeout | ReadTimeout | TooManyRedirects
| SystemError.

#[global] Instance exc_eq_dec : EqDecision exc.
Proof. solve_decision. Defined.

(** Direct base classes.  In [requests.exceptions]:
    [class ConnectTimeout(ConnectionError, Timeout)] and
    [class ReadTimeout(Timeout)]. *)
Definition bases (c : exc) : list exc :=
  match c with
  | BaseException => []
  | KeyboardInterrupt | Exception => [BaseException]
  | TypeError | ValueError | KeyError | UnboundLocalError | OverflowError
  | Gaierror | ClientError | ParamValidationError | WaiterError
  | RequestException | SystemError => [Exception]
  | ConnectionError | Timeout | TooManyRedirects => [RequestException]
  | ConnectTimeout => [ConnectionError; Timeout]
  | ReadTimeout => [Timeout]
  end.

Fixpoint issubclass_fuel (fuel : nat) (c d : exc) : bool :=
  bool_decide (c = d) ||
  match fuel with
  | O => false
  | S fuel' => existsb (fun b => issubclass_fuel fuel' b d) (bases c)
  end.

(** The hierarchy above is five classes deep. *)
Definition issubclass (c d : exc) : bool := issubclass_fuel 5 c d.

(** ** Results, traces and the monad of the script *)

Inductive res (A : Type) : Type :=
| Ret (a : A)
| Raise (e : exc).
Arguments Ret {A} a.
Arguments Raise {A} e.

Inductive level : Type := DEBUG | INFO | WARNING | ERROR.

#[global] Instance level_eq_dec : EqDecision level.
Proof. solve_decision. Defined.

Inductive logarg : Type :=
| LVal (v : pyvalue)
| LExc (e : exc).

#[global] Instance logarg_eq_dec : EqDecision logarg.
Proof. solve_decision. Defined.

(** One event per call that leaves the script.  Time-outs of the HTTP
    request are in milliseconds (2.34 s and 5.67 s in the source), the
    one of the socket in seconds. *)
Inductive event : Type :=
| Log (lvl : level) (fmt : string) (args : list logarg)
| SocketOpen
| SocketSetTimeout (seconds : Z)
| SocketConnectEx (host : option string) (port : Z)
| SocketClose
| SessionHead (url : string) (max_redirects : Z)
    (connect_ms read_ms : Z) (allow_redirects : bool)
| ConnectionClose
| InstancesFilter (fltr : list (string * list string))
| DescribeImages (owners : list string) (fltr : list (string * list string))
| CreateImage (instance_id name description : string) (no_reboot dry_run : bool)
| WaitImageAvailable (image_id : string)
| CreateTags (image_id : string) (tags : list (string * string))
| TerminateInstances (instance_id : string) (dry_run : bool)
| WaitInstanceTerminated (instance_id : string)
| DeregisterImage (image_id : string) (dry_run : bool)
| DatetimeNow
| DatetimeUtcnow.

#[global] Instance event_eq_dec : EqDecision event.
Proof. solve_decision. Defined.

Definition trace : Type := list event.

(** A computation reads and changes a state and either returns or raises;
    the state survives an exception.  The state is the trace for the
    functions that talk to the outside, the heap of list objects for
    [format_as_table]. *)
Definition M (S A : Type) : Type := S -> res A * S.

Definition ret {S A} (a : A) : M S A := fun s => (Ret a, s).

Definition raise {S A} (e : exc) : M S A := fun s => (Raise e, s).

Definition bind {S A B} (m : M S A) (k : A -> M S B) : M S B :=
  fun s =>
    match m s with
    | (Ret a, s') => k a s'
    | (Raise e, s') => (Raise e, s')
    end.

Notation "x <- m ;; k" := (bind m (fun x => k))
  (at level 100, m at next level, right associativity).
Notation "m ;;; k" := (bind m (fun _ => k))
  (at level 100, right associativity).

Definition lift {S A} (r : res A) : M S A := fun s => (r, s).

(** [try: m except h]: [h e] is [Some k] when a clause catches [e]. *)
Definition try_except {S A} (m : M S A) (h : exc -> option (M S A)) : M S A :=
  fun s =>
    match m s with
    | (Ret a, s') => (Ret a, s')
    | (Raise e, s') =>
        match h e with
        | Some k => k s'
        | None => (Raise e, s')
        end
    end.

Abbreviation IO := (M trace).

(** An event with no answer (a log line, a setter). *)
Definition emit (ev : event) : IO unit := fun tr => (Ret tt, tr ++ [ev]).

(** A call answered by the environment, which sees the trace before it. *)
Definition call {A} (ev : event) (answer : trace -> res A) : IO A :=
  fun tr => (answer tr, tr ++ [ev]).

(** [with closing(s)]: the socket is closed on every way out. *)
Definition with_closing {A} (body : IO A) : IO A :=
  fun tr => let '(r, tr') := body tr in (r, tr' ++ [SocketClose]).

Definition logger (lvl : level) (fmt : string) (args : list logarg) : IO unit :=
  emit (Log lvl fmt args).

(** [logger.error(e)]: the message is the exception itself. *)
Definition logger_exc (lvl : level) (e : exc) : IO unit :=
  emit (Log lvl "%s" [LExc e]).

Definition of_option (o : option string) : pyvalue :=
  match o with
  | Some s => VStr s
  | None => VNone
  end.

(** Truth value of an object, as [if] and [not] take it. *)
Definition truthy (v : pyvalue) : bool :=
  match v with
  | VNone => false
  | VBool b => b
  | VInt n => negb (n =? 0)
  | VStr s => negb (String.eqb s "")
  end.

(** [==]: a boolean is the integer 0 or 1. *)
Definition py_eq (v w : pyvalue) : bool :=
  match v, w with
  | VNone, VNone => true
  | VBool a, VBool b => Bool.eqb a b
  | VBool a, VInt n | VInt n, VBool a => Z.b2z a =? n
  | VInt m, VInt n => m =? n
  | VStr s, VStr t => String.eqb s t
  | _, _ => false
  end.

(** [v in codes] for a list of integers. *)
Definition py_in (v : pyvalue) (codes : list Z) : bool :=
  existsb (fun c => py_eq v (VInt c)) codes.

(** ** Data of the provider *)

Record Tag : Type := { Key : string; Value : string }.

(** An instance as boto3 presents it ([instance.tags], [instance.id],
    [instance.instance_type], [instance.state['Name']]); [i_tags] is
    [None] for an instance that carries no tag at all. *)
Record Instance : Type := {
  i_tags : option (list Tag);
  i_id : string;
  i_instance_type : string;
  i_state_Name : string
}.

Record Image : Type := {
  ImageId : string;
  Name : string;
  CreationDate : string;
  State : string
}.

(** A [datetime] without time zone, as the number of microseconds since
    0001-01-01T00:00:00: comparison of datetimes is comparison of these
    numbers, and subtracting a [timedelta] subtracts its microseconds. *)
Definition datetime : Type := Z.

Definition us_per_day : Z := 86400000000.

(** [datetime.max] is 9999-12-31T23:59:59.999999, day 3652059. *)
Definition datetime_max : datetime := 3652059 * us_per_day - 1.

(** [timedelta(days=days)], in microseconds. *)
Definition timedelta_days (days : Z) : res Z :=
  if Z.abs days >? 999999999 then Raise OverflowError
  else Ret (days * us_per_day).

(** [d - td] for a datetime and a timedelta. *)
Definition datetime_sub (d : datetime) (td : Z) : res datetime :=
  let r := d - td in
  if (r <? 0) || (r >? datetime_max) then Raise OverflowError else Ret r.

(** [s[:-n]] *)
Definition drop_last (n : nat) (s : string) : string :=
  String.substring 0 (String.length s - n) s.

(** What the outside world answers.  A collection of instances is lazy:
    it yields its instances one by one and may then fail. *)
Record Env : Type := {
  connect_ex : trace -> option string -> Z -> res Z;
  session_head : trace -> string -> res Z;
  connection_close : trace -> res unit;
  instances_filter :
    trace -> list (string * list string) -> res (list Instance * option exc);
  describe_images : trace -> res (list Image);
  create_image : trace -> string -> res string;
  waiter_wait : trace -> string -> res unit;
  create_tags : trace -> string -> res unit;
  terminate_instances : trace -> string -> res unit;
  deregister_image : trace -> string -> res unit;
  now_strftime : trace -> string;
  utcnow : trace -> datetime;
  strptime : string -> res datetime
}.

(** ** The dictionaries the script builds *)

(** The record of an instance that [get_instances] returns. *)
Module Inst.
Record t : Type := {
  instance_name : option string;
  instance_fqdn : option string;
  instance_id : string;
  instance_type : string;
  instance_state : string
}.
End Inst.

(** The record of a probed instance that [main] builds. *)
Module Result.
Record t : Type := {
  instance_name : option string;
  instance_fqdn : option string;
  instance_id : string;
  is_socket_open : bool;
  status_code : pyvalue;
  instance_state : string
}.
End Result.

(** The record of an image that [clenup_old_ami] builds. *)
Module Img.
Record t : Type := {
  image_id : string;
  image_name : string;
  image_created : string;
  image_state : string;
  action : option string
}.
End Img.

(** [clenup_old_ami] returns [False] or its list of records. *)
Inductive pruned : Type :=
| PFalse
| PList (results : list Img.t).

(** ** The report formatter *)

(** A dictionary of the report, and the heap of list objects: a Python
    list is a reference, and [data.insert] changes the object that every
    holder of the reference sees. *)
Abbreviation dict := (gmap string pyvalue).
Abbreviation loc := positive.
Abbreviation heap := (gmap loc (list dict)).
Abbreviation ST := (M heap).

(** Reading the list behind a reference.  A reference always has an
    object in Python; a location outside the heap is kept apart as a
    [SystemError]. *)
Definition load (l : loc) : ST (list dict) :=
  fun h =>
    match h !! l with
    | Some rows => (Ret rows, h)
    | None => (Raise SystemError, h)
    end.

(** A new list object. *)
Definition alloc (rows : list dict) : ST loc :=
  fun h => let l := fresh (dom h) in (Ret l, <[l := rows]> h).

(** [data.insert(0, x)] *)
Definition list_insert0 (l : loc) (x : dict) : ST unit :=
  fun h =>
    match h !! l with
    | Some rows => (Ret tt, <[l := x :: rows]> h)
    | None => (Raise SystemError, h)
    end.

(** [d[k]] *)
Definition getitem {S} (d : dict) (k : string) : M S pyvalue :=
  match d !! k with
  | Some v => ret v
  | None => raise KeyError
  end.

Fixpoint mapM {S A B} (f : A -> M S B) (l : list A) : M S (list B) :=
  match l with
  | [] => ret []
  | x :: rest =>
      y <- f x ;;
      ys <- mapM f rest ;;
      ret (y :: ys)
  end.

(** The order on values.  Numbers are ordered among themselves (a
    boolean is 0 or 1) and strings among themselves by both interpreters.
    Python 2 also orders objects of different types: [None] is below
    everything, then come the numbers, then the strings. *)
Definition py_cmp (v w : pyvalue) : comparison :=
  match v, w with
  | VNone, VNone => Eq
  | VNone, _ => Lt
  | _, VNone => Gt
  | VBool a, VBool b => Z.b2z a ?= Z.b2z b
  | VBool a, VInt n => Z.b2z a ?= n
  | VInt m, VBool b => m ?= Z.b2z b
  | VInt m, VInt n => m ?= n
  | (VBool _ | VInt _), VStr _ => Lt
  | VStr _, (VBool _ | VInt _) => Gt
  | VStr s, VStr t => String.compare s t
  end.

Definition py_le (v w : pyvalue) : bool :=
  match py_cmp v w with
  | Gt => false
  | _ => true
  end.

Fixpoint insert_sorted (x : pyvalue * dict) (l : list (pyvalue * dict))
    : list (pyvalue * dict) :=
  match l with
  | [] => [x]
  | y :: rest =>
      if py_le (fst x) (fst y) then x :: y :: rest
      else y :: insert_sorted x rest
  end.

(** The stable sort of a list of rows with their keys. *)
Definition stable_sort (l : list (pyvalue * dict)) : list (pyvalue * dict) :=
  foldr insert_sorted [] l.

(** Under Python 3, [v < w] is a [TypeError] unless both are numbers or
    both are strings: [None < None] is one too. *)
Definition orderable (v w : pyvalue) : bool :=
  match v, w with
  | (VBool _ | VInt _), (VBool _ | VInt _) => true
  | VStr _, VStr _ => true
  | _, _ => false
  end.

(** Whether the comparisons of a sort succeed.  A list of less than two
    keys is sorted without a comparison.  In a longer list every key is
    compared with another one, and keys of two kinds cannot be put in
    order without one comparison across the kinds, whichever pairs the
    algorithm picks: under Python 3 the sort succeeds exactly when all
    keys are numbers or all are strings. *)
Definition sortable (py : python) (keys : list pyvalue) : bool :=
  match py, keys with
  | Py2, _ => true
  | Py3, ([] | [_]) => true
  | Py3, k :: _ => forallb (orderable k) keys
  end.

(** [sorted(data, key=itemgetter(key), reverse=reverse)]: the keys are
    read first, then compared; a reverse sort reverses, sorts and
    reverses again, which keeps rows of equal key in their order. *)
Definition sorted {S} (py : python) (data : list dict) (key : string)
    (reverse : bool) : M S (list dict) :=
  keyed <- mapM (fun d => k <- getitem d key ;; ret (k, d)) data ;;
  if sortable py (fst <$> keyed) then
    if reverse then ret (snd <$> rev (stable_sort (rev keyed)))
    else ret (snd <$> stable_sort keyed)
  else raise TypeError.

(** [str(v)] *)
Definition py_str (v : pyvalue) : string :=
  match v with
  | VNone => "None"
  | VBool true => "True"
  | VBool false => "False"
  | VInt n => pretty n
  | VStr s => s
  end.

(** [c * n] for a one-character string *)
Fixpoint str_mul (c : ascii) (n : nat) : string :=
  match n with
  | O => ""
  | S n' => String c (str_mul c n')
  end.

(** [dict(zip(keys, values))]: a later pair overrides an earlier one. *)
Definition dict_zip (keys : list string) (values : list string) : dict :=
  foldl (fun d kv => <[kv.1 := VStr kv.2]> d) ∅ (zip keys values).

(** Line 297: [max] of an empty sequence is a [ValueError]. *)
Definition column_width {S} (data : list dict) (key : string) : M S nat :=
  lens <- mapM (fun column => v <- getitem column key ;;
                              ret (String.length (py_str v))) data ;;
  match lens with
  | [] => raise ValueError
  | n :: ns => ret (foldl Nat.max n ns)
  end.

(** ['%-*s' % (width, value)] *)
Definition ljust (width : nat) (v : pyvalue) : string :=
  py_str v +:+ str_mul " " (width - String.length (py_str v)).

Definition newline : string := String "010" "".

(** Lines 305-311 for one row, [pairs] being what the walk of
    [key_width_pair] yields and [n] the number of keys: the format string
    of line 302 has [n] fields, so that [format % tuple(data_to_format)]
    is a [TypeError] unless there is a width and a value for each of
    them.  Otherwise: a cell per key, left-justified, one space between
    two cells, a newline at the end. *)
Definition format_row {S} (n : nat) (pairs : list (string * nat))
    (element : dict) : M S string :=
  cells <- mapM (fun pair => v <- getitem element pair.1 ;;
                             ret (ljust pair.2 v)) pairs ;;
  if Nat.eqb (length cells) n then ret (String.concat " " cells +:+ newline)
  else raise TypeError.

(** [for pair in key_width_pair] (line 308): what the walk yields, and
    what [key_width_pair] holds after it.  The list of Python 2 is
    walked again for every row; the iterator of Python 3 is exhausted by
    the first walk. *)
Definition iterate {A} (py : python) (it : list A) : list A * list A :=
  match py with
  | Py2 => (it, it)
  | Py3 => (it, [])
  end.

(** The loop of lines 304-311. *)
Fixpoint format_rows {S} (py : python) (n : nat)
    (key_width_pair : list (string * nat)) (data : list dict)
    : M S (list string) :=
  match data with
  | [] => ret []
  | element :: rest =>
      let walk := iterate py key_width_pair in
      line <- format_row n walk.1 element ;;
      lines <- format_rows py n walk.2 rest ;;
      ret (line :: lines)
  end.

(** Lines 253-312.  [data] is the reference the caller passes. *)
Definition format_as_table (py : python) (data : loc) (keys : list string)
    (header : option (list string)) (sort_by_key : option string)
    (sort_order_reverse : bool) : ST string :=
  data <- match sort_by_key with
          | Some key =>
              if truthy (VStr key) then
                rows <- load data ;;
                rows' <- sorted py rows key sort_order_reverse ;;
                alloc rows'
              else ret data
          | None => ret data
          end ;;
  match header with
  | Some (name :: names) =>
      let header := name :: names in
      let header_divider :=
        (fun name => str_mul "-" (String.length name)) <$> header in
      list_insert0 data (dict_zip keys header_divider) ;;;
      list_insert0 data (dict_zip keys header)
  | _ => ret tt
  end ;;;
  rows <- load data ;;
  column_widths <- mapM (column_width rows) keys ;;
  let key_width_pair := zip keys column_widths in
  formatted_data <- format_rows py (length keys) key_width_pair rows ;;
  ret (String.concat "" formatted_data).

(** ** The functions of the script *)

Definition http_valid_codes : list Z :=
  [200; 201; 202; 203; 204; 205; 206; 300; 301; 302; 303; 304; 307; 308].

Section Routine.

Variable env : Env.
Variable py : python.

(** [prefix + host]: concatenating [None] to a string is a [TypeError]. *)
Definition str_add (prefix : string) (host : option string) : IO string :=
  match host with
  | Some h => ret (prefix +:+ h)
  | None => raise TypeError
  end.

(** Lines 32-59.  The bare [except: pass] around the closing of the
    connection swallows everything. *)
Definition get_http_status_code (host : option string) (port : Z)
    (max_redirects : Z) : IO pyvalue :=
  prefix <- (if port =? 443 then ret "https://"
             else
               logger DEBUG
                 "Only 80 and 443 port is accepted. Lets try 80 by default..." [] ;;;
               ret "http://") ;;
  try_except
    (url <- str_add prefix host ;;
     status_code <- call (SessionHead url 3 2340 5670 true)
                      (fun tr => session_head env tr url) ;;
     try_except
       (logger DEBUG "closing connection" [] ;;;
        call ConnectionClose (connection_close env))
       (fun _ => Some (ret tt)) ;;;
     ret (VInt status_code))
    (fun e => if issubclass e ConnectionError
              then Some (ret (VBool false)) else None).

(** Lines 62-78. *)
Definition check_socket (host : option string) (port : Z) (timeout : Z)
    : IO bool :=
  emit SocketOpen ;;;
  emit (SocketSetTimeout 1) ;;;
  with_closing
    (rc <- call (SocketConnectEx host port)
             (fun tr => connect_ex env tr host port) ;;
     if rc =? 0 then
       logger INFO "Server %s is available on port %d"
         [LVal (of_option host); LVal (VInt port)] ;;;
       ret true
     else
       logger ERROR "Server %s is not available on port %d"
         [LVal (of_option host); LVal (VInt port)] ;;;
       ret false).

(** Lines 104-108: the last tag with key [Name], and with key [FQDN]. *)
Fixpoint read_tags (tags : list Tag) (instance_name instance_fqdn : option string)
    : option string * option string :=
  match tags with
  | [] => (instance_name, instance_fqdn)
  | tag :: rest =>
      let instance_name :=
        if String.eqb (Key tag) "Name" then Some (Value tag) else instance_name in
      let instance_fqdn :=
        if String.eqb (Key tag) "FQDN" then Some (Value tag) else instance_fqdn in
      read_tags rest instance_name instance_fqdn
  end.

(** Lines 101-115, the body of the loop: iterating over [None] is a
    [TypeError]. *)
Definition instance_record (instance : Instance) : IO Inst.t :=
  match i_tags instance with
  | None => raise TypeError
  | Some tags =>
      let '(instance_name, instance_fqdn) := read_tags tags None None in
      ret {| Inst.instance_name := instance_name;
             Inst.instance_fqdn := instance_fqdn;
             Inst.instance_id := i_id instance;
             Inst.instance_type := i_instance_type instance;
             Inst.instance_state := i_state_Name instance |}
  end.

Fixpoint for_instances (instances : list Instance) (results : list Inst.t)
    : IO (list Inst.t) :=
  match instances with
  | [] => ret results
  | instance :: rest =>
      r <- instance_record instance ;;
      for_instances rest (results ++ [r])
  end.

(** Lines 81-116.  The local [instances] is bound only when the query
    returns: [None] below is the unbound name, and reading it at line 100
    is an [UnboundLocalError]. *)
Definition get_instances (key : string) (value state : list string)
    : IO (list Inst.t) :=
  let fltr := [("tag:" +:+ key, value); ("instance-state-name", state)] in
  instances <-
    try_except
      (c <- call (InstancesFilter fltr) (fun tr => instances_filter env tr fltr) ;;
       ret (Some c))
      (fun e =>
         if issubclass e ClientError then
           Some (logger ERROR "Unexpected error: %s" [LExc e] ;;; ret None)
         else if issubclass e Exception then
           Some (logger ERROR "Unexpected error: %s" [LExc e] ;;; ret None)
         else None) ;;
  match instances with
  | None => raise UnboundLocalError
  | Some (yielded, failure) =>
      results <- for_instances yielded [] ;;
      match failure with
      | Some e => raise e
      | None => ret results
      end
  end.

(** Lines 118-136. *)
Definition get_owned_images (key value : string) : IO (list Image) :=
  call (DescribeImages ["self"] [(key, [value])]) (describe_images env).

(** Lines 139-180.  [create_fmt] is the local time as
    [strftime('%Y-%m-%d-%H-%M-%S')] renders it; [instance_name + " - "]
    is a [TypeError] when the instance has no [Name] tag. *)
Definition create_ami_and_add_tag (instance_id : string)
    (instance_name : option string) : IO bool :=
  create_fmt <- call DatetimeNow (fun tr => Ret (now_strftime env tr)) ;;
  name <- match instance_name with
          | Some n => ret (n +:+ " - " +:+ create_fmt)
          | None => raise TypeError
          end ;;
  let description := "Autocreated image: " +:+ name in
  image_id <- call (CreateImage instance_id name description true false)
                (fun tr => create_image env tr instance_id) ;;
  logger INFO "Waiting for image %s to be created..." [LVal (VStr image_id)] ;;;
  call (WaitImageAvailable image_id) (fun tr => waiter_wait env tr image_id) ;;;
  logger INFO "Image %s created" [LVal (VStr image_id)] ;;;
  if truthy (VStr image_id) then
    call (CreateTags image_id [("Name", "EgorAMI")])
      (fun tr => create_tags env tr image_id) ;;;
    logger INFO "Created AMI for instance %s (%s) with tags"
      [LVal (VStr instance_id); LVal (of_option instance_name)] ;;;
    ret true
  else
    logger ERROR "No AMI id" [] ;;;
    ret false.

(** Lines 182-204. *)
Definition terminate_instance (instance_id : string) : IO bool :=
  try_except
    (logger INFO "Terminating old instance %s" [LVal (VStr instance_id)] ;;;
     call (TerminateInstances instance_id false)
       (fun tr => terminate_instances env tr instance_id) ;;;
     logger INFO "Waiting while instance %s to be terminated..."
       [LVal (VStr instance_id)] ;;;
     call (WaitInstanceTerminated instance_id)
       (fun tr => waiter_wait env tr instance_id) ;;;
     logger INFO "Instance %s is terminated" [LVal (VStr instance_id)] ;;;
     ret true)
    (fun e => if issubclass e ClientError
              then Some (logger_exc ERROR e ;;; ret false) else None).

(** Lines 219-248, the body of the loop over the images.  It either goes
    on with the longer list of results ([inl]) or leaves the function
    with a value ([inr], the [return False] of line 237). *)
Definition clenup_body (days : Z) (utc : datetime) (image : Image)
    (results : list Img.t) : IO (list Img.t + pruned) :=
  let image_id := ImageId image in
  let image_name := Name image in
  let image_created := CreationDate image in
  let image_state := State image in
  utc_image_created <- lift (strptime env (drop_last 5 image_created)) ;;
  td <- lift (timedelta_days days) ;;
  date_N_days_ago <- lift (datetime_sub utc td) ;;
  outcome <-
    (if utc_image_created <? date_N_days_ago then
       try_except
         (call (DeregisterImage image_id false)
            (fun tr => deregister_image env tr image_id) ;;;
          ret (inl (Some "deregistered")))
         (fun e => if issubclass e ClientError
                   then Some (logger_exc ERROR e ;;; ret (inr PFalse))
                   else None)
     else
       logger INFO "image %s (%s) is newer %d days"
         [LVal (VStr image_id); LVal (VStr image_name); LVal (VInt days)] ;;;
       ret (inl None)) ;;
  match outcome with
  | inr v => ret (inr v)
  | inl action =>
      ret (inl (results ++
                [{| Img.image_id := image_id;
                    Img.image_name := image_name;
                    Img.image_created := image_created;
                    Img.image_state := image_state;
                    Img.action := action |}]))
  end.

Fixpoint for_images (days : Z) (utc : datetime) (images : list Image)
    (results : list Img.t) : IO (list Img.t + pruned) :=
  match images with
  | [] => ret (inl results)
  | image :: rest =>
      r <- clenup_body days utc image results ;;
      match r with
      | inl results' => for_images days utc rest results'
      | inr v => ret (inr v)
      end
  end.

(** Lines 206-250. *)
Definition clenup_old_ami (days : Z) : IO pruned :=
  logger WARNING "Cleanup AMI older than %d" [LVal (VInt days)] ;;;
  utc <- call DatetimeUtcnow (fun tr => Ret (utcnow env tr)) ;;
  images <- get_owned_images "name" "egor*" ;;
  r <- for_images days utc images [] ;;
  match r with
  | inl results => ret (PList results)
  | inr v => ret v
  end.

(** Lines 321-352, the body of the first loop of [main]. *)
Definition probe (instance : Inst.t) : IO Result.t :=
  let instance_name := Inst.instance_name instance in
  let instance_fqdn := Inst.instance_fqdn instance in
  let instance_id := Inst.instance_id instance in
  let instance_state := Inst.instance_state instance in
  is_socket_open <- check_socket instance_fqdn 80 1 ;;
  status_code <-
    (if is_socket_open then
       status_code <- get_http_status_code instance_fqdn 80 3 ;;
       (if truthy status_code then
          if py_in status_code http_valid_codes then
            logger INFO "Valid status code %d received from host %s"
              [LVal status_code; LVal (of_option instance_fqdn)]
          else
            logger INFO "Status code %d is not in valid list for host %s"
              [LVal status_code; LVal (of_option instance_fqdn)]
        else
          logger WARNING "Request check failed for host %s"
            [LVal (of_option instance_fqdn)]) ;;;
       ret status_code
     else
       logger WARNING
         "Request check skipped for host %s (probably socket is closed)"
         [LVal (of_option instance_fqdn)] ;;;
       ret VNone) ;;
  ret {| Result.instance_name := instance_name;
         Result.instance_fqdn := instance_fqdn;
         Result.instance_id := instance_id;
         Result.is_socket_open := is_socket_open;
         Result.status_code := status_code;
         Result.instance_state := instance_state |}.

Fixpoint for_probe (instances : list Inst.t) (results : list Result.t)
    : IO (list Result.t) :=
  match instances with
  | [] => ret results
  | instance :: rest =>
      r <- probe instance ;;
      for_probe rest (results ++ [r])
  end.

(** Line 356, the test that selects the instances to retire. *)
Definition is_stopped (result : Result.t) : bool :=
  negb (Result.is_socket_open result)
  && negb (py_in (Result.status_code result) http_valid_codes)
  && String.eqb (Result.instance_state result) "stopped".

Definition set_instance_state (result : Result.t) (s : string) : Result.t :=
  {| Result.instance_name := Result.instance_name result;
     Result.instance_fqdn := Result.instance_fqdn result;
     Result.instance_id := Result.instance_id result;
     Result.is_socket_open := Result.is_socket_open result;
     Result.status_code := Result.status_code result;
     Result.instance_state := s |}.

(** Lines 355-363, the body of the second loop of [main]; the record is
    changed in place, which the returned record stands for. *)
Definition retire (result : Result.t) : IO Result.t :=
  if is_stopped result then
    create_ami_result <-
      create_ami_and_add_tag (Result.instance_id result)
        (Result.instance_name result) ;;
    terminate_result <- terminate_instance (Result.instance_id result) ;;
    if terminate_result : bool
    then ret (set_instance_state result "terminated")
    else ret result
  else ret result.

(** The second loop: [done] are the records already visited. *)
Fixpoint for_retire (results done : list Result.t) : IO (list Result.t) :=
  match results with
  | [] => ret done
  | result :: rest =>
      r <- retire result ;;
      for_retire rest (done ++ [r])
  end.

(** The report row of a record. *)
Definition to_row (result : Result.t) : dict :=
  <["instance_state" := VStr (Result.instance_state result)]>
  (<["status_code" := Result.status_code result]>
  (<["is_socket_open" := VBool (Result.is_socket_open result)]>
  (<["instance_id" := VStr (Result.instance_id result)]>
  (<["instance_fqdn" := of_option (Result.instance_fqdn result)]>
  (<["instance_name" := of_option (Result.instance_name result)]> ∅))))).

(** Lines 315-379.  The list of results is the only list object when
    the report is made. *)
Definition main : IO unit :=
  logger INFO "Started" [] ;;;
  instances <- get_instances "Name" ["egor*"] ["*"] ;;
  results <- for_probe instances [] ;;
  results <- for_retire results [] ;;
  clenup_result <- clenup_old_ami 7 ;;
  let header := ["instance_name"; "instance_fqdn"; "instance_id";
                 "is_socket_open"; "status_code"; "instance_state"] in
  let keys := header in
  table <- lift (format_as_table py 1%positive keys (Some header)
                   (Some "instance_fqdn") false
                   {[ 1%positive := to_row <$> results ]}).1 ;;
  logger INFO (newline +:+ table) [] ;;;
  logger INFO "Finished" [].

End Routine.

(** * Environments and vocabulary of the statements *)

Arguments issubclass : simpl never.

(** The environment of a host that listens and answers 200. *)
Definition env_up : Env :=
  {| connect_ex := fun _ _ _ => Ret 0;
     session_head := fun _ _ => Ret 200;
     connection_close := fun _ => Ret tt;
     instances_filter := fun _ _ => Ret ([], None);
     describe_images := fun _ => Ret [];
     create_image := fun _ _ => Ret "ami-1";
     waiter_wait := fun _ _ => Ret tt;
     create_tags := fun _ _ => Ret tt;
     terminate_instances := fun _ _ => Ret tt;
     deregister_image := fun _ _ => Ret tt;
     now_strftime := fun _ => "2018-03-08-10-00-00";
     utcnow := fun _ => 0;
     strptime := fun _ => Raise ValueError |}.

(** The environment of a host that accepts the connection and then sends
    nothing: the request ends in a read time-out. *)
Definition env_read_timeout : Env :=
  {| connect_ex := fun _ _ _ => Ret 0;
     session_head := fun _ _ => Raise ReadTimeout;
     connection_close := fun _ => Ret tt;
     instances_filter := fun _ _ => Ret ([], None);
     describe_images := fun _ => Ret [];
     create_image := fun _ _ => Ret "ami-1";
     waiter_wait := fun _ _ => Ret tt;
     create_tags := fun _ _ => Ret tt;
     terminate_instances := fun _ _ => Ret tt;
     deregister_image := fun _ _ => Ret tt;
     now_strftime := fun _ => "2018-03-08-10-00-00";
     utcnow := fun _ => 0;
     strptime := fun _ => Raise ValueError |}.

(** The scheme of the request and the trace before it. *)
Definition scheme (port : Z) : string :=
  if port =? 443 then "https://" else "http://".

Definition before_head (port : Z) (tr : trace) : trace :=
  if port =? 443 then tr
  else tr ++ [Log DEBUG
                "Only 80 and 443 port is accepted. Lets try 80 by default..." []].

(** The environment of a provider that refuses the listing query. *)
Definition env_denied : Env :=
  {| connect_ex := fun _ _ _ => Ret 0;
     session_head := fun _ _ => Ret 200;
     connection_close := fun _ => Ret tt;
     instances_filter := fun _ _ => Raise ClientError;
     describe_images := fun _ => Ret [];
     create_image := fun _ _ => Ret "ami-1";
     waiter_wait := fun _ _ => Ret tt;
     create_tags := fun _ _ => Ret tt;
     terminate_instances := fun _ _ => Ret tt;
     deregister_image := fun _ _ => Ret tt;
     now_strftime := fun _ => "2018-03-08-10-00-00";
     utcnow := fun _ => 0;
     strptime := fun _ => Raise ValueError |}.

(** The environment of a provider whose collection fails when it is
    iterated: the query itself is only sent then. *)
Definition env_denied_lazy : Env :=
  {| connect_ex := fun _ _ _ => Ret 0;
     session_head := fun _ _ => Ret 200;
     connection_close := fun _ => Ret tt;
     instances_filter := fun _ _ => Ret ([], Some ClientError);
     describe_images := fun _ => Ret [];
     create_image := fun _ _ => Ret "ami-1";
     waiter_wait := fun _ _ => Ret tt;
     create_tags := fun _ _ => Ret tt;
     terminate_instances := fun _ _ => Ret tt;
     deregister_image := fun _ _ => Ret tt;
     now_strftime := fun _ => "2018-03-08-10-00-00";
     utcnow := fun _ => 0;
     strptime := fun _ => Raise ValueError |}.

(** Two instances named [egor-*]; the first has no [FQDN] tag. *)
Definition instance_web : Instance :=
  {| i_tags := Some [{| Key := "Name"; Value := "egor-web" |}];
     i_id := "i-0a1";
     i_instance_type := "t2.micro";
     i_state_Name := "stopped" |}.

Definition instance_db : Instance :=
  {| i_tags := Some [{| Key := "FQDN"; Value := "db.example.org" |};
                     {| Key := "Name"; Value := "egor-db" |}];
     i_id := "i-0b2";
     i_instance_type := "t2.micro";
     i_state_Name := "running" |}.

Definition env_two : Env :=
  {| connect_ex := fun _ host _ =>
       match host with
       | Some _ => Ret 0
       | None => Raise TypeError
       end;
     session_head := fun _ _ => Ret 200;
     connection_close := fun _ => Ret tt;
     instances_filter := fun _ _ => Ret ([instance_web; instance_db], None);
     describe_images := fun _ => Ret [];
     create_image := fun _ _ => Ret "ami-1";
     waiter_wait := fun _ _ => Ret tt;
     create_tags := fun _ _ => Ret tt;
     terminate_instances := fun _ _ => Ret tt;
     deregister_image := fun _ _ => Ret tt;
     now_strftime := fun _ => "2018-03-08-10-00-00";
     utcnow := fun _ => 0;
     strptime := fun _ => Raise ValueError |}.

(** The filter of [get_instances] (line 91). *)
Definition fltr_of (key : string) (value state : list string)
    : list (string * list string) :=
  [("tag:" +:+ key, value); ("instance-state-name", state)].

(** An instance carries a tag of key [k]; an instance has no tag of key
    [k] in its tag set. *)
Definition carries_tag (k : string) (instance : Instance) : Prop :=
  exists tags t, i_tags instance = Some tags /\ In t tags /\ Key t = k.

Definition lacks_tag (k : string) (instance : Instance) : Prop :=
  forall tags t, i_tags instance = Some tags -> In t tags -> Key t <> k.

(** What the record of an instance with a tag set holds. *)
Definition record_matches (instance : Instance) (r : Inst.t) : Prop :=
  (lacks_tag "Name" instance -> Inst.instance_name r = None)
  /\ (lacks_tag "FQDN" instance -> Inst.instance_fqdn r = None)
  /\ Inst.instance_id r = i_id instance
  /\ Inst.instance_type r = i_instance_type instance
  /\ Inst.instance_state r = i_state_Name instance.

(** *** The pruner *)

(** [utc - timedelta(days=days)] (line 227). *)
Definition cutoff (utc : datetime) (days : Z) : res datetime :=
  match timedelta_days days with
  | Ret td => datetime_sub utc td
  | Raise e => Raise e
  end.

(** The creation time of the image parses and is strictly earlier than
    the cutoff. *)
Definition older (env : Env) (utc : datetime) (days : Z) (image : Image) : bool :=
  match strptime env (drop_last 5 (CreationDate image)), cutoff utc days with
  | Ret c, Ret d => c <? d
  | _, _ => false
  end.

(** The images for which a trace holds a deregistration request. *)
Definition deregistered (tr : trace) : list string :=
  omap (fun ev => match ev with
                  | DeregisterImage image_id _ => Some image_id
                  | _ => None
                  end) tr.

Definition image_record (image : Image) (action : option string) : Img.t :=
  {| Img.image_id := ImageId image;
     Img.image_name := Name image;
     Img.image_created := CreationDate image;
     Img.image_state := State image;
     Img.action := action |}.

(** The trace when the clock is read, the clock, the trace when the
    images are listed, the images, and the trace when the loop starts. *)
Definition pass_log (days : Z) : event :=
  Log WARNING "Cleanup AMI older than %d" [LVal (VInt days)].

Definition pass_utc (env : Env) (days : Z) (tr : trace) : datetime :=
  utcnow env (tr ++ [pass_log days]).

Definition pass_images (env : Env) (days : Z) (tr : trace) : res (list Image) :=
  describe_images env (tr ++ [pass_log days; DatetimeUtcnow]).

Definition pass_start (days : Z) (tr : trace) : trace :=
  tr ++ [pass_log days; DatetimeUtcnow;
         DescribeImages ["self"] [("name", ["egor*"])]].

(** A reader of ["%Y-%m-%dT%H:%M:%S"] for fields of full width, the shape
    of the creation dates of the provider; the day number is the
    proleptic Gregorian ordinal, 1 for 0001-01-01. *)
Definition digit (c : ascii) : option Z :=
  let n := Z.of_N (N_of_ascii c) in
  if (48 <=? n) && (n <=? 57) then Some (n - 48) else None.

Fixpoint number (cs : list ascii) (acc : Z) : option Z :=
  match cs with
  | [] => Some acc
  | c :: rest =>
      match digit c with
      | Some d => number rest (10 * acc + d)
      | None => None
      end
  end.

Definition is_leap (y : Z) : bool :=
  (y mod 4 =? 0) && (negb (y mod 100 =? 0) || (y mod 400 =? 0)).

Definition days_in_months (y : Z) : list Z :=
  [31; if is_leap y then 29 else 28; 31; 30; 31; 30; 31; 31; 30; 31; 30; 31].

Definition days_before_year (y : Z) : Z :=
  let y := y - 1 in y * 365 + y / 4 - y / 100 + y / 400.

Definition days_before_month (y m : Z) : Z :=
  foldr Z.add 0 (take (Z.to_nat (m - 1)) (days_in_months y)).

Definition ymd2ord (y m d : Z) : Z :=
  days_before_year y + days_before_month y m + d.

Definition sep (c : ascii) (s : string) : bool :=
  String.eqb (String c "") s.

Definition strptime_iso (s : string) : res datetime :=
  match String.list_ascii_of_string s with
  | [y1; y2; y3; y4; c1; m1; m2; c2; d1; d2; c3; h1; h2; c4; n1; n2; c5; s1; s2] =>
      match number [y1; y2; y3; y4] 0, number [m1; m2] 0, number [d1; d2] 0,
            number [h1; h2] 0, number [n1; n2] 0, number [s1; s2] 0 with
      | Some y, Some m, Some d, Some h, Some n, Some sec =>
          if sep c1 "-" && sep c2 "-" && sep c3 "T" && sep c4 ":" && sep c5 ":"
             && (1 <=? y) && (1 <=? m) && (m <=? 12) && (1 <=? d)
             && (d <=? nth (Z.to_nat (m - 1)) (days_in_months y) 0)
             && (h <=? 23) && (n <=? 59) && (sec <=? 59)
          then Ret (((((ymd2ord y m d - 1) * 24 + h) * 60 + n) * 60 + sec)
                    * 1000000)
          else Raise ValueError
      | _, _, _, _, _, _ => Raise ValueError
      end
  | _ => Raise ValueError
  end.

(** Three images on 2018-03-08T10:00:00: eight days old, seven days old
    to the second, and six days old. *)
Definition image_8d : Image :=
  {| ImageId := "ami-8d"; Name := "egor-web - 2018-02-28-10-00-00";
     CreationDate := "2018-02-28T10:00:00.000Z"; State := "available" |}.

Definition image_7d : Image :=
  {| ImageId := "ami-7d"; Name := "egor-web - 2018-03-01-10-00-00";
     CreationDate := "2018-03-01T10:00:00.000Z"; State := "available" |}.

Definition image_6d : Image :=
  {| ImageId := "ami-6d"; Name := "egor-web - 2018-03-02-10-00-00";
     CreationDate := "2018-03-02T10:00:00.000Z"; State := "available" |}.

Definition image_9d : Image :=
  {| ImageId := "ami-9d"; Name := "egor-db - 2018-02-27-10-00-00";
     CreationDate := "2018-02-27T10:00:00.000Z"; State := "available" |}.

Definition env_prune : Env :=
  {| connect_ex := fun _ _ _ => Ret 0;
     session_head := fun _ _ => Ret 200;
     connection_close := fun _ => Ret tt;
     instances_filter := fun _ _ => Ret ([], None);
     describe_images := fun _ => Ret [image_8d; image_7d; image_6d];
     create_image := fun _ _ => Ret "ami-1";
     waiter_wait := fun _ _ => Ret tt;
     create_tags := fun _ _ => Ret tt;
     terminate_instances := fun _ _ => Ret tt;
     deregister_image := fun _ _ => Ret tt;
     now_strftime := fun _ => "2018-03-08-10-00-00";
     utcnow := fun _ => 63656100000000000;
     strptime := strptime_iso |}.

(** The provider refuses to deregister [ami-8d], the second of three
    old images. *)
Definition env_prune_refused : Env :=
  {| connect_ex := fun _ _ _ => Ret 0;
     session_head := fun _ _ => Ret 200;
     connection_close := fun _ => Ret tt;
     instances_filter := fun _ _ => Ret ([], None);
     describe_images := fun _ => Ret [image_9d; image_8d; image_6d];
     create_image := fun _ _ => Ret "ami-1";
     waiter_wait := fun _ _ => Ret tt;
     create_tags := fun _ _ => Ret tt;
     terminate_instances := fun _ _ => Ret tt;
     deregister_image := fun _ image_id =>
       if String.eqb image_id "ami-8d" then Raise ClientError else Ret tt;
     now_strftime := fun _ => "2018-03-08-10-00-00";
     utcnow := fun _ => 63656100000000000;
     strptime := strptime_iso |}.

(** The pass over the three images of [env_prune]. *)
Definition newer_log (image : Image) (days : Z) : event :=
  Log INFO "image %s (%s) is newer %d days"
    [LVal (VStr (ImageId image)); LVal (VStr (Name image)); LVal (VInt days)].

Definition prune_results : list Img.t :=
  [image_record image_8d (Some "deregistered");
   image_record image_7d None;
   image_record image_6d None].

Definition prune_trace : trace :=
  [pass_log 7; DatetimeUtcnow; DescribeImages ["self"] [("name", ["egor*"])];
   DeregisterImage "ami-8d" false; newer_log image_7d 7; newer_log image_6d 7].

(** *** The orchestrator *)

(** A status code is a member of the accepted set. *)
Definition accepted (v : pyvalue) : Prop :=
  exists n, v = VInt n /\ In n http_valid_codes.

(** The instances for which a trace holds a request for an image, a
    request for termination; the addresses of its HTTP requests. *)
Definition snapshots (tr : trace) : list string :=
  omap (fun ev => match ev with
                  | CreateImage instance_id _ _ _ _ => Some instance_id
                  | _ => None
                  end) tr.

Definition terminations (tr : trace) : list string :=
  omap (fun ev => match ev with
                  | TerminateInstances instance_id _ => Some instance_id
                  | _ => None
                  end) tr.

(** The instances that a trace shows terminated: the provider accepted
    the request, the waiter returned and line 200 logged it. *)
Definition terminated (tr : trace) : list string :=
  omap (fun ev => match ev with
                  | Log INFO fmt [LVal (VStr instance_id)] =>
                      if String.eqb fmt "Instance %s is terminated"
                      then Some instance_id else None
                  | _ => None
                  end) tr.

(** The instances of which a trace shows an image made: the provider
    gave an image id, the image was tagged and line 179 logged it. *)
Definition imaged (tr : trace) : list string :=
  omap (fun ev => match ev with
                  | Log INFO fmt [LVal (VStr instance_id); _] =>
                      if String.eqb fmt
                           "Created AMI for instance %s (%s) with tags"
                      then Some instance_id else None
                  | _ => None
                  end) tr.




Definition heads (tr : trace) : list string :=
  omap (fun ev => match ev with
                  | SessionHead url _ _ _ _ => Some url
                  | _ => None
                  end) tr.

(** The address probed for a record: none when the socket was closed. *)
Definition probed_url (r : Result.t) : option string :=
  if Result.is_socket_open r
  then (fun h => "http://" +:+ h) <$> Result.instance_fqdn r
  else None.

(** A fleet of three: a stopped instance that does not answer, a running
    instance that answers 200, and a running instance that does not
    answer.  111 is the code of a refused connection. *)
Definition inst_web : Inst.t :=
  {| Inst.instance_name := Some "egor-web";
     Inst.instance_fqdn := Some "web.example.org";
     Inst.instance_id := "i-0a1";
     Inst.instance_type := "t2.micro";
     Inst.instance_state := "stopped" |}.

Definition inst_db : Inst.t :=
  {| Inst.instance_name := Some "egor-db";
     Inst.instance_fqdn := Some "db.example.org";
     Inst.instance_id := "i-0b2";
     Inst.instance_type := "t2.micro";
     Inst.instance_state := "running" |}.

Definition inst_app : Inst.t :=
  {| Inst.instance_name := Some "egor-app";
     Inst.instance_fqdn := Some "app.example.org";
     Inst.instance_id := "i-0c3";
     Inst.instance_type := "t2.micro";
     Inst.instance_state := "running" |}.

Definition fleet : list Inst.t := [inst_web; inst_db; inst_app].

Definition env_fleet : Env :=
  {| connect_ex := fun _ host _ =>
       match host with
       | Some h => if String.eqb h "db.example.org" then Ret 0 else Ret 111
       | None => Raise TypeError
       end;
     session_head := fun _ _ => Ret 200;
     connection_close := fun _ => Ret tt;
     instances_filter := fun _ _ => Ret ([], None);
     describe_images := fun _ => Ret [];
     create_image := fun _ _ => Ret "ami-1";
     waiter_wait := fun _ _ => Ret tt;
     create_tags := fun _ _ => Ret tt;
     terminate_instances := fun _ _ => Ret tt;
     deregister_image := fun _ _ => Ret tt;
     now_strftime := fun _ => "2018-03-08-10-00-00";
     utcnow := fun _ => 63656100000000000;
     strptime := strptime_iso |}.

Definition result_of (i : Inst.t) (is_socket_open : bool) (status_code : pyvalue)
    (instance_state : string) : Result.t :=
  {| Result.instance_name := Inst.instance_name i;
     Result.instance_fqdn := Inst.instance_fqdn i;
     Result.instance_id := Inst.instance_id i;
     Result.is_socket_open := is_socket_open;
     Result.status_code := status_code;
     Result.instance_state := instance_state |}.

Definition fleet_results : list Result.t :=
  [result_of inst_web false VNone "stopped";
   result_of inst_db true (VInt 200) "running";
   result_of inst_app false VNone "running"].

Definition fleet_retired : list Result.t :=
  [result_of inst_web false VNone "terminated";
   result_of inst_db true (VInt 200) "running";
   result_of inst_app false VNone "running"].

(** *** The report formatter *)

(** The two rows of the example, and the header and divider rows that
    [format_as_table] makes of the header [A], [B]. *)
Definition row_x : dict := <["b" := VStr "yy"]> (<["a" := VStr "x"]> ∅).
Definition row_zzz : dict := <["b" := VStr "w"]> (<["a" := VStr "zzz"]> ∅).
Definition row_header : dict := <["b" := VStr "B"]> (<["a" := VStr "A"]> ∅).
Definition row_divider : dict := <["b" := VStr "-"]> (<["a" := VStr "-"]> ∅).

(** The heap of a caller that holds the two rows in one list. *)
Definition caller_heap : heap := {[ 1%positive := [row_x; row_zzz] ]}.

(** A text of lines. *)
Definition unlines (lines : list string) : string :=
  String.concat "" ((fun l => l +:+ newline) <$> lines).

(** A computation that leaves the state as it is. *)
Definition pure_on {S A} (m : M S A) : Prop := forall s, (m s).2 = s.

(** One stopped instance that does not answer, and no image to prune. *)
Definition env_one_stopped : Env :=
  {| connect_ex := fun _ _ _ => Ret 111;
     session_head := fun _ _ => Ret 200;
     connection_close := fun _ => Ret tt;
     instances_filter := fun _ _ =>
       Ret ([{| i_tags := Some [{| Key := "Name"; Value := "egor-web" |};
                                {| Key := "FQDN"; Value := "web.example.org" |}];
                i_id := "i-0a1";
                i_instance_type := "t2.micro";
                i_state_Name := "stopped" |}], None);
     describe_images := fun _ => Ret [];
     create_image := fun _ _ => Ret "ami-1";
     waiter_wait := fun _ _ => Ret tt;
     create_tags := fun _ _ => Ret tt;
     terminate_instances := fun _ _ => Ret tt;
     deregister_image := fun _ _ => Ret tt;
     now_strftime := fun _ => "2018-03-08-10-00-00";
     utcnow := fun _ => 63656100000000000;
     strptime := strptime_iso |}.

(** The calls to the provider in a trace, without the log lines and the
    probes. *)
Definition provider_calls (tr : trace) : trace :=
  List.filter (fun ev => match ev with
                         | InstancesFilter _ | DescribeImages _ _
                         | CreateImage _ _ _ _ _ | WaitImageAvailable _
                         | CreateTags _ _ | TerminateInstances _ _
                         | WaitInstanceTerminated _ | DeregisterImage _ _ => true
                         | _ => false
                         end) tr.

From Stdlib Require Import Sorted.

Local Open Scope string_scope.
Local Open Scope Z_scope.
Local Open Scope list_scope.

(** *** What a computation adds to the trace *)

(** Every event that [m] adds to the trace, whether it returns or
    raises, satisfies [P]. *)
Definition emits {A} (P : event -> Prop) (m : IO A) : Prop :=
  forall tr, exists evs, (m tr).2 = tr ++ evs /\ Forall P evs.

(** The events of the probes: log lines, the socket and the HTTP
    session. *)
Definition is_probe_event (ev : event) : bool :=
  match ev with
  | Log _ _ _ | SocketOpen | SocketSetTimeout _ | SocketConnectEx _ _
  | SocketClose | SessionHead _ _ _ _ _ | ConnectionClose => true
  | _ => false
  end.

(** The events of the pruner: log lines, the clock, the listing and the
    deregistration of images. *)
Definition is_prune_event (ev : event) : bool :=
  match ev with
  | Log _ _ _ | DatetimeUtcnow | DescribeImages _ _ | DeregisterImage _ _ => true
  | _ => false
  end.

(** The events of the lister: log lines and the query. *)
Definition is_listing_event (ev : event) : bool :=
  match ev with
  | Log _ _ _ | InstancesFilter _ => true
  | _ => false
  end.

(** The events of [create_ami_and_add_tag]: log lines, the clock, and
    the request, the wait and the tags of the image. *)
Definition is_snapshot_event (ev : event) : bool :=
  match ev with
  | Log _ _ _ | DatetimeNow | CreateImage _ _ _ _ _ | WaitImageAvailable _
  | CreateTags _ _ => true
  | _ => false
  end.

(** A provider whose waiters give up. *)
Definition env_wait_fails : Env :=
  {| connect_ex := fun _ _ _ => Ret 111;
     session_head := fun _ _ => Ret 200;
     connection_close := fun _ => Ret tt;
     instances_filter := fun _ _ => Ret ([], None);
     describe_images := fun _ => Ret [];
     create_image := fun _ _ => Ret "ami-1";
     waiter_wait := fun _ _ => Raise WaiterError;
     create_tags := fun _ _ => Ret tt;
     terminate_instances := fun _ _ => Ret tt;
     deregister_image := fun _ _ => Ret tt;
     now_strftime := fun _ => "2018-03-08-10-00-00";
     utcnow := fun _ => 63656100000000000;
     strptime := strptime_iso |}.

(** A provider that answers the request for an image with an empty
    image id. *)
Definition env_no_image_id : Env :=
  {| connect_ex := fun _ _ _ => Ret 111;
     session_head := fun _ _ => Ret 200;
     connection_close := fun _ => Ret tt;
     instances_filter := fun _ _ => Ret ([], None);
     describe_images := fun _ => Ret [];
     create_image := fun _ _ => Ret "";
     waiter_wait := fun _ _ => Ret tt;
     create_tags := fun _ _ => Ret tt;
     terminate_instances := fun _ _ => Ret tt;
     deregister_image := fun _ _ => Ret tt;
     now_strftime := fun _ => "2018-03-08-10-00-00";
     utcnow := fun _ => 63656100000000000;
     strptime := strptime_iso |}.

(** A provider that refuses every termination. *)
Definition env_no_terminate : Env :=
  {| connect_ex := fun _ _ _ => Ret 111;
     session_head := fun _ _ => Ret 200;
     connection_close := fun _ => Ret tt;
     instances_filter := fun _ _ => Ret ([], None);
     describe_images := fun _ => Ret [];
     create_image := fun _ _ => Ret "ami-1";
     waiter_wait := fun _ _ => Ret tt;
     create_tags := fun _ _ => Ret tt;
     terminate_instances := fun _ _ => Raise ClientError;
     deregister_image := fun _ _ => Ret tt;
     now_strftime := fun _ => "2018-03-08-10-00-00";
     utcnow := fun _ => 63656100000000000;
     strptime := strptime_iso |}.

(** The record of the stopped instance of the fleet, and the record of
    a stopped instance that has no [Name] tag. *)
Definition result_web : Result.t := result_of inst_web false VNone "stopped".

Definition result_nameless : Result.t :=
  {| Result.instance_name := None;
     Result.instance_fqdn := Some "web.example.org";
     Result.instance_id := "i-0d4";
     Result.is_socket_open := false;
     Result.status_code := VNone;
     Result.instance_state := "stopped" |}.

(** The name and the description that line 148 and 149 give an image. *)
Definition image_name_of (env : Env) (tr : trace) (instance_name : string) : string :=
  instance_name +:+ " - " +:+ now_strftime env tr.

Definition image_description_of (env : Env) (tr : trace) (instance_name : string)
    : string :=
  "Autocreated image: " +:+ image_name_of env tr instance_name.

(** An image whose creation date carries microseconds: dropping five
    characters leaves [.00] after the seconds. *)
Definition image_micro : Image :=
  {| ImageId := "ami-us"; Name := "egor-web - 2018-02-20-10-00-00";
     CreationDate := "2018-02-20T10:00:00.000000Z"; State := "available" |}.

Definition env_prune_micro : Env :=
  {| connect_ex := fun _ _ _ => Ret 0;
     session_head := fun _ _ => Ret 200;
     connection_close := fun _ => Ret tt;
     instances_filter := fun _ _ => Ret ([], None);
     describe_images := fun _ => Ret [image_9d; image_micro; image_8d];
     create_image := fun _ _ => Ret "ami-1";
     waiter_wait := fun _ _ => Ret tt;
     create_tags := fun _ _ => Ret tt;
     terminate_instances := fun _ _ => Ret tt;
     deregister_image := fun _ _ => Ret tt;
     now_strftime := fun _ => "2018-03-08-10-00-00";
     utcnow := fun _ => 63656100000000000;
     strptime := strptime_iso |}.

(** *** The report formatter *)

(** The rows that the header adds in front of the table (lines 280-293):
    none for an absent or empty header. *)
Definition header_rows (keys : list string) (header : option (list string))
    : list dict :=
  match header with
  | Some (name :: names) =>
      [dict_zip keys (name :: names);
       dict_zip keys ((fun name => str_mul "-" (String.length name))
                      <$> name :: names)]
  | _ => []
  end.

(** The rows after lines 274-277: sorted when a sort key is given. *)
Definition sorted_or_same (py : python) (rows : list dict)
    (sort_by_key : option string) (reverse : bool) (h : heap)
    : res (list dict) :=
  match sort_by_key with
  | Some key =>
      if truthy (VStr key) then (sorted py rows key reverse h).1 else Ret rows
  | None => Ret rows
  end.

(** The value a row is sorted by. *)
Definition key_of (key : string) (row : dict) : pyvalue :=
  default VNone (row !! key).

(** The line of a row in a table of the given keys and widths: [str] of
    each field, left-justified to the width of its column, one space
    between two cells, and a newline. *)
Definition row_text (keys : list string) (widths : list nat) (row : dict)
    : string :=
  String.concat " "
    ((fun kw : string * nat => ljust kw.2 (key_of kw.1 row))
     <$> zip keys widths)
  +:+ newline.

(** A heap whose only list is empty. *)
Definition empty_list_heap : heap := {[ 1%positive := [] ]}.

(** A row with no field [b]. *)
Definition row_no_b : dict := <["a" := VStr "q"]> ∅.

(** A row whose field [a] is [None]. *)
Definition row_none : dict := <["b" := VStr "w"]> (<["a" := VNone]> ∅).

(** The order of [sorted]: [le_key key a b] when the value row [a] is
    sorted by is not greater than that of row [b]. *)
Definition le_key (key : string) (a b : dict) : Prop :=
  py_le (key_of key a) (key_of key b) = true.

(** An instance with two [Name] tags. *)
Definition instance_renamed : Instance :=
  {| i_tags := Some [{| Key := "Name"; Value := "egor-old" |};
                     {| Key := "FQDN"; Value := "web.example.org" |};
                     {| Key := "Name"; Value := "egor-new" |}];
     i_id := "i-0e5";
     i_instance_type := "t2.micro";
     i_state_Name := "running" |}.

(** * Properties *)

(** ** Running a computation *)

Lemma bind_ret_l {S A B} (a : A) (k : A -> M S B) s : bind (ret a) k s = k a s.
Proof. reflexivity. Qed.

Lemma bind_Ret {S A B} (m : M S A) (k : A -> M S B) s a s' :
  m s = (Ret a, s') -> bind m k s = k a s'.
Proof. intros H. unfold bind. now rewrite H. Qed.

Lemma bind_Raise {S A B} (m : M S A) (k : A -> M S B) s e s' :
  m s = (Raise e, s') -> bind m k s = (Raise e, s').
Proof. intros H. unfold bind. now rewrite H. Qed.

(** A computation that returns after a bind: both halves returned. *)
Lemma bind_inv_Ret {S A B} (m : M S A) (k : A -> M S B) s b s2 :
  bind m k s = (Ret b, s2) ->
  exists a s1, m s = (Ret a, s1) /\ k a s1 = (Ret b, s2).
Proof.
  unfold bind. destruct (m s) as [[a|e] s1]; intros H.
  - eauto.
  - discriminate.
Qed.

Ltac unfold_io :=
  unfold logger_exc, logger, emit, call, with_closing, try_except, lift,
    bind, ret, raise in *.

(** The class tests the handlers of the script make. *)
Lemma issubclass_ConnectionError e :
  issubclass e ConnectionError = true <-> e = ConnectionError \/ e = ConnectTimeout.
Proof. destruct e; vm_compute; split; intros H; try discriminate; auto;
  destruct H; discriminate. Qed.

Lemma issubclass_ClientError e :
  issubclass e ClientError = true <-> e = ClientError.
Proof. destruct e; vm_compute; split; intros H; try discriminate; auto. Qed.

Lemma issubclass_Exception e :
  issubclass e Exception = true <-> e <> BaseException /\ e <> KeyboardInterrupt.
Proof.
  destruct e; vm_compute; split; intros H; try discriminate; auto;
    try (split; discriminate); destruct H; congruence.
Qed.

(** ** The health prober *)

(** C2: [check_socket] sets the time-out of the socket to 1 second
    whatever [timeout] it is given (line 70), so that the argument of the
    caller is not used; it returns [True] exactly when [connect_ex]
    returns 0, and closes the socket on every way out. *)
Theorem check_socket_timeout_is_one (env : Env) (host : option string)
    (port timeout : Z) (tr : trace) :
  let rc := connect_ex env (tr ++ [SocketOpen; SocketSetTimeout 1]) host port in
  exists evs,
    (check_socket env host port timeout tr).2 =
      tr ++ [SocketOpen; SocketSetTimeout 1; SocketConnectEx host port]
         ++ evs ++ [SocketClose]
    /\ (forall t, In (SocketSetTimeout t) evs -> False)
    /\ (check_socket env host port timeout tr).1 =
         match rc with
         | Ret code => Ret (code =? 0)
         | Raise e => Raise e
         end
    /\ check_socket env host port timeout tr = check_socket env host port 1 tr.
Proof.
  intros rc. unfold check_socket. unfold_io. cbn.
  rewrite <- !app_assoc. cbn. fold rc.
  destruct rc as [code|e].
  - destruct (code =? 0) eqn:Hc.
    + eexists [_]. cbn. rewrite <- !app_assoc. cbn.
      repeat split; try reflexivity. intros t [H|[]]; discriminate.
    + eexists [_]. cbn. rewrite <- !app_assoc. cbn.
      repeat split; try reflexivity. intros t [H|[]]; discriminate.
  - exists []. cbn. rewrite <- !app_assoc. cbn.
    repeat split; try reflexivity. intros t [].
Qed.

(** The call [check_socket(host, 80, timeout=5)] on a host that listens. *)
Example check_socket_timeout_5 :
  check_socket env_up (Some "example.org") 80 5 [] =
    (Ret true,
     [SocketOpen; SocketSetTimeout 1; SocketConnectEx (Some "example.org") 80;
      Log INFO "Server %s is available on port %d"
        [LVal (VStr "example.org"); LVal (VInt 80)];
      SocketClose]).
Proof. reflexivity. Qed.

(** C5, as the code has it: the request goes to [https://host] exactly
    when the port is 443 and to [http://host] otherwise; the status code
    of the answer is returned; an error of class
    [requests.ConnectionError] (failed name resolution, refused
    connection, and the connect time-out, which is a subclass) gives
    [False]; any other error, the read time-out among them, is raised. *)
Theorem get_http_status_code_cases (env : Env) (host : string)
    (port max_redirects : Z) (tr : trace) :
  let url := scheme port +:+ host in
  let run := get_http_status_code env (Some host) port max_redirects tr in
  (scheme port = "https://" <-> port = 443)
  /\ (scheme port = "http://" <-> port <> 443)
  /\ In (SessionHead url 3 2340 5670 true) run.2
  /\ run.1 =
       match session_head env (before_head port tr) url with
       | Ret code => Ret (VInt code)
       | Raise e =>
           if issubclass e ConnectionError then Ret (VBool false) else Raise e
       end
  /\ issubclass ConnectionError ConnectionError = true
  /\ issubclass ConnectTimeout ConnectionError = true
  /\ issubclass ReadTimeout ConnectionError = false.
Proof.
  cbn zeta. unfold scheme, before_head, get_http_status_code.
  split; [|split].
  - destruct (Z.eqb_spec port 443); split; intros H; congruence.
  - destruct (Z.eqb_spec port 443); split; intros H; congruence.
  - destruct (port =? 443); unfold_io; cbn;
      match goal with
      | |- context [session_head ?e ?t ?u] => destruct (session_head e t u) as [code|e']
      end; cbn.
    + destruct (connection_close env _); cbn;
        (split; [rewrite !in_app_iff; cbn; tauto | repeat split]).
    + destruct (issubclass e' ConnectionError); cbn;
        (split; [rewrite !in_app_iff; cbn; tauto | repeat split]).
    + destruct (connection_close env _); cbn;
        (split; [rewrite !in_app_iff; cbn; tauto | repeat split]).
    + destruct (issubclass e' ConnectionError); cbn;
        (split; [rewrite !in_app_iff; cbn; tauto | repeat split]).
Qed.

(** The claim C5 as the specification words it fails on a read time-out:
    the exception leaves the function. *)
Lemma get_http_status_code_read_timeout :
  get_http_status_code env_read_timeout (Some "example.org") 80 3 [] =
    (Raise ReadTimeout,
     [Log DEBUG "Only 80 and 443 port is accepted. Lets try 80 by default..." [];
      SessionHead "http://example.org" 3 2340 5670 true])
  /\ (get_http_status_code env_read_timeout (Some "example.org") 80 3 []).1
     <> Ret (VBool false).
Proof. split; [reflexivity | discriminate]. Qed.

(** ** The inventory lister *)

Lemma read_tags_Name tags n f :
  (read_tags tags n f).1 = None <->
  n = None /\ forall t, In t tags -> Key t <> "Name".
Proof.
  revert n f. induction tags as [|t tags IH]; intros n f; cbn.
  - split; [intros ->; split; [reflexivity | intros t []] | intros [-> _]; reflexivity].
  - rewrite IH. destruct (String.eqb_spec (Key t) "Name") as [E|E].
    + split; [intros [H _]; discriminate | intros [_ H]; destruct (H t); auto].
    + split.
      * intros [-> H]. split; [reflexivity|]. intros t' [<-|Hin]; auto.
      * intros [-> H]. split; [reflexivity|]. intros t' Hin. apply H. now right.
Qed.

Lemma read_tags_FQDN tags n f :
  (read_tags tags n f).2 = None <->
  f = None /\ forall t, In t tags -> Key t <> "FQDN".
Proof.
  revert n f. induction tags as [|t tags IH]; intros n f; cbn.
  - split; [intros ->; split; [reflexivity | intros t []] | intros [-> _]; reflexivity].
  - rewrite IH. destruct (String.eqb_spec (Key t) "FQDN") as [E|E].
    + split; [intros [H _]; discriminate | intros [_ H]; destruct (H t); auto].
    + split.
      * intros [-> H]. split; [reflexivity|]. intros t' [<-|Hin]; auto.
      * intros [-> H]. split; [reflexivity|]. intros t' Hin. apply H. now right.
Qed.

Lemma instance_record_tagged instance tags tr :
  i_tags instance = Some tags ->
  exists r, instance_record instance tr = (Ret r, tr)
            /\ record_matches instance r.
Proof.
  intros Htags. unfold instance_record. rewrite Htags.
  destruct (read_tags tags None None) as [n f] eqn:E.
  eexists. split; [reflexivity|]. unfold record_matches, lacks_tag. cbn.
  repeat split.
  - intros H. change n with (n, f).1. rewrite <- E. apply read_tags_Name.
    split; [reflexivity|]. intros t Hin. now apply (H tags).
  - intros H. change f with (n, f).2. rewrite <- E. apply read_tags_FQDN.
    split; [reflexivity|]. intros t Hin. now apply (H tags).
Qed.

Lemma for_instances_tagged instances results tr :
  Forall (fun i => is_Some (i_tags i)) instances ->
  exists rs, for_instances instances results tr = (Ret (results ++ rs), tr)
             /\ Forall2 record_matches instances rs.
Proof.
  intros H. revert results. induction H as [|i rest [tags Hi] _ IH]; intros results.
  - exists []. cbn. rewrite app_nil_r. split; [reflexivity | constructor].
  - destruct (instance_record_tagged i tags tr Hi) as (r & Hr & Hm).
    destruct (IH (results ++ [r])) as (rs & Hrs & Hall).
    exists (r :: rs). cbn. split.
    + rewrite (bind_Ret _ _ _ _ _ Hr), Hrs. now rewrite <- app_assoc.
    + now constructor.
Qed.

Lemma carries_tag_is_Some key instance :
  carries_tag key instance -> is_Some (i_tags instance).
Proof. intros (tags & _ & H & _). rewrite H. eauto. Qed.

(** C7: for a listing that the provider answers with instances matching
    the tag filter, [get_instances] returns one record per instance, in
    order; the name of a record is [None] when the instance has no [Name]
    tag, its fqdn is [None] when the instance has no [FQDN] tag, and the
    listing does not fail. *)
Theorem get_instances_absent_tags (env : Env) (key : string)
    (value state : list string) (tr : trace) (instances : list Instance) :
  instances_filter env tr (fltr_of key value state) = Ret (instances, None) ->
  Forall (carries_tag key) instances ->
  exists results,
    get_instances env key value state tr =
      (Ret results, tr ++ [InstancesFilter (fltr_of key value state)])
    /\ Forall2 record_matches instances results.
Proof.
  intros Hq Hall. unfold get_instances. fold (fltr_of key value state).
  assert (Hsome : Forall (fun i => is_Some (i_tags i)) instances).
  { eapply Forall_impl; [exact Hall|]. intros i. apply carries_tag_is_Some. }
  destruct (for_instances_tagged instances []
              (tr ++ [InstancesFilter (fltr_of key value state)]) Hsome)
    as (rs & Hrs & Hm).
  exists rs. split; [|exact Hm].
  unfold_io. rewrite Hq. cbn. unfold_io. cbn in Hrs. now rewrite Hrs.
Qed.

Lemma get_instances_absent_tags_witness :
  exists results,
    get_instances env_two "Name" ["egor*"] ["*"] [] =
      (Ret results, [InstancesFilter (fltr_of "Name" ["egor*"] ["*"])])
    /\ Forall2 record_matches [instance_web; instance_db] results.
Proof.
  apply (get_instances_absent_tags env_two "Name" ["egor*"] ["*"] []
           [instance_web; instance_db]).
  - reflexivity.
  - repeat constructor.
    + exists [{| Key := "Name"; Value := "egor-web" |}],
        {| Key := "Name"; Value := "egor-web" |}. cbn. auto.
    + exists [{| Key := "FQDN"; Value := "db.example.org" |};
              {| Key := "Name"; Value := "egor-db" |}],
        {| Key := "Name"; Value := "egor-db" |}. cbn. auto.
Defined.

(** The records of the two instances: the first has no fqdn. *)
Example get_instances_two :
  (get_instances env_two "Name" ["egor*"] ["*"] []).1 =
    Ret [ {| Inst.instance_name := Some "egor-web";
             Inst.instance_fqdn := None;
             Inst.instance_id := "i-0a1";
             Inst.instance_type := "t2.micro";
             Inst.instance_state := "stopped" |};
          {| Inst.instance_name := Some "egor-db";
             Inst.instance_fqdn := Some "db.example.org";
             Inst.instance_id := "i-0b2";
             Inst.instance_type := "t2.micro";
             Inst.instance_state := "running" |} ].
Proof. reflexivity. Qed.

(** When the query raises, the handler logs it and the loop of line 100
    reads a name that was never bound. *)
Lemma get_instances_filter_raises env key value state tr e :
  instances_filter env tr (fltr_of key value state) = Raise e ->
  issubclass e Exception = true ->
  get_instances env key value state tr =
    (Raise UnboundLocalError,
     tr ++ [InstancesFilter (fltr_of key value state);
            Log ERROR "Unexpected error: %s" [LExc e]]).
Proof.
  intros Hq He. unfold get_instances. fold (fltr_of key value state).
  unfold_io. rewrite Hq, He. cbn.
  destruct (issubclass e ClientError); cbn; now rewrite <- app_assoc.
Qed.

(** When the collection fails after it has yielded its instances, the
    error leaves the function and the records built so far are lost. *)
Lemma get_instances_iteration_raises env key value state tr instances e :
  instances_filter env tr (fltr_of key value state) = Ret (instances, Some e) ->
  Forall (fun i => is_Some (i_tags i)) instances ->
  get_instances env key value state tr =
    (Raise e, tr ++ [InstancesFilter (fltr_of key value state)]).
Proof.
  intros Hq Hsome. unfold get_instances. fold (fltr_of key value state).
  destruct (for_instances_tagged instances []
              (tr ++ [InstancesFilter (fltr_of key value state)]) Hsome)
    as (rs & Hrs & _).
  unfold_io. rewrite Hq. cbn. unfold_io. cbn in Hrs. now rewrite Hrs.
Qed.

(** C6: with a provider that answers the listing query by a
    [ClientError], [get_instances] returns no list.  When the call of
    line 93 raises, the error is logged and [UnboundLocalError] is
    raised; when the collection raises as it is iterated, the
    [ClientError] itself leaves the function, unlogged. *)
Theorem get_instances_query_error :
  get_instances env_denied "Name" ["egor*"] ["*"] [] =
    (Raise UnboundLocalError,
     [InstancesFilter [("tag:Name", ["egor*"]); ("instance-state-name", ["*"])];
      Log ERROR "Unexpected error: %s" [LExc ClientError]])
  /\ get_instances env_denied_lazy "Name" ["egor*"] ["*"] [] =
       (Raise ClientError,
        [InstancesFilter
           [("tag:Name", ["egor*"]); ("instance-state-name", ["*"])]]).
Proof. split; reflexivity. Qed.

(** ** The retention pruner *)

Lemma deregistered_app tr1 tr2 :
  deregistered (tr1 ++ tr2) = deregistered tr1 ++ deregistered tr2.
Proof. apply omap_app. Qed.

(** One image, when the loop goes on: its creation time parsed, the
    cutoff was computed, and the strict comparison decided. *)
Lemma clenup_body_inl env days utc image acc tr acc' tr' :
  clenup_body env days utc image acc tr = (Ret (inl acc'), tr') ->
  exists c d,
    strptime env (drop_last 5 (CreationDate image)) = Ret c
    /\ cutoff utc days = Ret d
    /\ acc' = acc ++ [image_record image
                        (if c <? d then Some "deregistered" else None)]
    /\ deregistered tr' =
         deregistered tr ++ (if c <? d then [ImageId image] else []).
Proof.
  unfold clenup_body, cutoff. unfold_io.
  destruct (strptime env _) as [c|]; [|discriminate].
  destruct (timedelta_days days) as [td|]; [|discriminate].
  destruct (datetime_sub utc td) as [d|]; [|discriminate].
  destruct (c <? d) eqn:E.
  - destruct (deregister_image env tr (ImageId image)) as [[]|e].
    + intros H; inversion H; subst. exists c, d.
      rewrite deregistered_app, E. repeat split.
    + destruct (issubclass e ClientError); discriminate.
  - intros H; inversion H; subst. exists c, d.
    rewrite deregistered_app, E. cbn. rewrite app_nil_r. repeat split.
Qed.

(** One old image that the provider refuses to deregister: the function
    is left with [False] right after the error is logged. *)
Lemma clenup_body_refused env days utc image acc tr c d e :
  strptime env (drop_last 5 (CreationDate image)) = Ret c ->
  cutoff utc days = Ret d ->
  c < d ->
  deregister_image env tr (ImageId image) = Raise e ->
  issubclass e ClientError = true ->
  clenup_body env days utc image acc tr =
    (Ret (inr PFalse),
     tr ++ [DeregisterImage (ImageId image) false; Log ERROR "%s" [LExc e]]).
Proof.
  intros Hc Hd Hlt Hr He. unfold clenup_body, cutoff in *. unfold_io.
  rewrite Hc. destruct (timedelta_days days) as [td|]; [|discriminate].
  rewrite Hd. apply Z.ltb_lt in Hlt. rewrite Hlt, Hr, He.
  now rewrite <- app_assoc.
Qed.

Lemma for_images_inl env days utc images :
  forall acc tr acc' tr',
  for_images env days utc images acc tr = (Ret (inl acc'), tr') ->
  acc' = acc ++ ((fun image =>
                    image_record image
                      (if older env utc days image
                       then Some "deregistered" else None)) <$> images)
  /\ deregistered tr' =
       deregistered tr ++ (ImageId <$> List.filter (older env utc days) images)
  /\ Forall (fun image =>
       exists c d,
         strptime env (drop_last 5 (CreationDate image)) = Ret c
         /\ cutoff utc days = Ret d
         /\ (older env utc days image = true <-> c < d)) images.
Proof.
  induction images as [|image rest IH]; intros acc tr acc' tr'; cbn.
  - intros H; inversion H; subst. rewrite !app_nil_r. repeat split. constructor.
  - intros H. apply bind_inv_Ret in H as ([acc1|v] & tr1 & Hbody & Hrest);
      [|discriminate].
    apply clenup_body_inl in Hbody as (c & d & Hc & Hd & -> & Htr1).
    apply IH in Hrest as (-> & Htr' & Hall).
    assert (Ho : older env utc days image = (c <? d)).
    { unfold older. now rewrite Hc, Hd. }
    rewrite Ho. repeat split.
    + now rewrite <- app_assoc.
    + rewrite Htr', Htr1. destruct (c <? d); cbn; now rewrite <- app_assoc.
    + constructor; [|exact Hall]. exists c, d. rewrite Ho.
      repeat split; trivial; apply Z.ltb_lt.
Qed.

Lemma for_images_app env days utc pre rest :
  forall acc tr acc1 tr1,
  for_images env days utc pre acc tr = (Ret (inl acc1), tr1) ->
  for_images env days utc (pre ++ rest) acc tr =
    for_images env days utc rest acc1 tr1.
Proof.
  induction pre as [|image pre IH]; intros acc tr acc1 tr1; cbn.
  - intros H; inversion H; subst. reflexivity.
  - intros H. apply bind_inv_Ret in H as ([acc0|v] & tr0 & Hbody & Hrest);
      [|discriminate].
    rewrite (bind_Ret _ _ _ _ _ Hbody). now apply IH.
Qed.

Lemma clenup_old_ami_unfold env days tr :
  clenup_old_ami env days tr =
    match pass_images env days tr with
    | Ret images =>
        match for_images env days (pass_utc env days tr) images []
                (pass_start days tr) with
        | (Ret (inl results), tr') => (Ret (PList results), tr')
        | (Ret (inr v), tr') => (Ret v, tr')
        | (Raise e, tr') => (Raise e, tr')
        end
    | Raise e => (Raise e, pass_start days tr)
    end.
Proof.
  unfold clenup_old_ami, get_owned_images, pass_images, pass_utc, pass_start,
    pass_log. unfold_io. rewrite <- !app_assoc. cbn.
  destruct (describe_images env _) as [images|e]; [|reflexivity].
  destruct (for_images env days _ images [] _) as [[[results|v]|e] tr']; reflexivity.
Qed.

(** A pass returns its list when every creation date parses, the
    cutoff is a datetime and the provider accepts every deregistration. *)
Lemma for_images_returns env days utc d images :
  cutoff utc days = Ret d ->
  (forall tr image_id, deregister_image env tr image_id = Ret tt) ->
  Forall (fun image => exists c,
            strptime env (drop_last 5 (CreationDate image)) = Ret c) images ->
  forall acc tr, exists acc' tr',
    for_images env days utc images acc tr = (Ret (inl acc'), tr').
Proof.
  intros Hd Hder Hall. induction Hall as [|image rest [c Hc] _ IH];
    intros acc tr; cbn.
  - eauto.
  - assert (Hb : exists acc1 tr1,
              clenup_body env days utc image acc tr = (Ret (inl acc1), tr1)).
    { unfold clenup_body, cutoff in *. unfold_io. rewrite Hc.
      destruct (timedelta_days days); [|discriminate]. rewrite Hd.
      destruct (c <? d); [rewrite Hder|]; eauto. }
    destruct Hb as (acc1 & tr1 & Hb). rewrite (bind_Ret _ _ _ _ _ Hb).
    apply IH.
Qed.

Lemma clenup_old_ami_returns env days tr d images :
  pass_images env days tr = Ret images ->
  cutoff (pass_utc env days tr) days = Ret d ->
  (forall tr image_id, deregister_image env tr image_id = Ret tt) ->
  Forall (fun image => exists c,
            strptime env (drop_last 5 (CreationDate image)) = Ret c) images ->
  exists results tr', clenup_old_ami env days tr = (Ret (PList results), tr').
Proof.
  intros Himg Hd Hder Hall. rewrite clenup_old_ami_unfold, Himg.
  destruct (for_images_returns env days _ d images Hd Hder Hall []
              (pass_start days tr)) as (acc & tr' & ->).
  eauto.
Qed.

(** C3: in a pass of [clenup_old_ami] that returns its list, there is
    one record per listed image, in order; an image is deregistered, and
    its record carries the action [deregistered], exactly when its parsed
    creation time is strictly earlier than the clock reading minus
    [days]; the record of any other image, one created exactly at the
    cutoff included, carries no action, and no request is made for it. *)
Theorem clenup_old_ami_strictly_older (env : Env) (days : Z) (tr tr' : trace)
    (results : list Img.t) :
  clenup_old_ami env days tr = (Ret (PList results), tr') ->
  let utc := pass_utc env days tr in
  exists images,
    pass_images env days tr = Ret images
    /\ results =
         (fun image =>
            image_record image
              (if older env utc days image then Some "deregistered" else None))
         <$> images
    /\ deregistered tr' =
         deregistered tr ++ (ImageId <$> List.filter (older env utc days) images)
    /\ Forall (fun image =>
         exists c d,
           strptime env (drop_last 5 (CreationDate image)) = Ret c
           /\ cutoff utc days = Ret d
           /\ d = utc - days * us_per_day
           /\ (older env utc days image = true <-> c < d)
           /\ (c = d -> older env utc days image = false)) images.
Proof.
  intros H utc. rewrite clenup_old_ami_unfold in H.
  destruct (pass_images env days tr) as [images|e] eqn:Himg; [|discriminate].
  fold utc in H.
  destruct (for_images env days utc images [] (pass_start days tr))
    as [[[acc|v]|e] tr1] eqn:Hloop.
  - inversion H; subst. apply for_images_inl in Hloop as (Hres & Htr & Hall).
    exists images. repeat split; trivial.
    + rewrite Htr. unfold pass_start. rewrite deregistered_app. cbn.
      now rewrite app_nil_r.
    + eapply Forall_impl; [exact Hall|]. cbn.
      intros image (c & d & Hc & Hd & Ho). exists c, d. repeat split; trivial.
      * unfold cutoff, timedelta_days, datetime_sub in Hd.
        destruct (Z.abs days >? 999999999); [discriminate|].
        destruct ((utc - days * us_per_day <? 0)
                  || (utc - days * us_per_day >? datetime_max));
          [discriminate|]. now inversion Hd.
      * apply Ho.
      * apply Ho.
      * intros ->. apply not_true_is_false. intros E. apply Ho in E. lia.
  - assert (v = PList results) by (now inversion H). subst v.
    exfalso. clear H. revert Hloop. generalize (pass_start days tr).
    generalize (@nil Img.t). clear.
    induction images as [|image rest IH]; intros acc t; cbn.
    + discriminate.
    + unfold bind at 1.
      destruct (clenup_body env days utc image acc t) as [[[a|w]|e] t1] eqn:Hb.
      * apply IH.
      * intros H; inversion H; subst.
        revert Hb. unfold clenup_body. unfold_io.
        destruct (strptime env _); [|discriminate].
        destruct (timedelta_days days); [|discriminate].
        destruct (datetime_sub utc _); [|discriminate].
        destruct (_ <? _).
        -- destruct (deregister_image env t _) as [[]|e]; [discriminate|].
           destruct (issubclass e ClientError); discriminate.
        -- discriminate.
      * discriminate.
  - discriminate.
Qed.

Lemma clenup_old_ami_strictly_older_witness :
  exists images,
    pass_images env_prune 7 [] = Ret images
    /\ prune_results =
         (fun image =>
            image_record image
              (if older env_prune (pass_utc env_prune 7 []) 7 image
               then Some "deregistered" else None))
         <$> images
    /\ deregistered prune_trace =
         deregistered [] ++
         (ImageId <$> List.filter (older env_prune (pass_utc env_prune 7 []) 7)
                        images)
    /\ Forall (fun image =>
         exists c d,
           strptime env_prune (drop_last 5 (CreationDate image)) = Ret c
           /\ cutoff (pass_utc env_prune 7 []) 7 = Ret d
           /\ d = pass_utc env_prune 7 [] - 7 * us_per_day
           /\ (older env_prune (pass_utc env_prune 7 []) 7 image = true <-> c < d)
           /\ (c = d -> older env_prune (pass_utc env_prune 7 []) 7 image = false))
         images.
Proof.
  apply (clenup_old_ami_strictly_older env_prune 7 [] prune_trace prune_results).
  vm_compute. reflexivity.
Defined.

(** Eight days old is pruned; seven days old to the second is not, nor
    is six days old. *)
Example clenup_old_ami_boundary :
  clenup_old_ami env_prune 7 [] = (Ret (PList prune_results), prune_trace)
  /\ Img.action <$> prune_results = [Some "deregistered"; None; None]
  /\ strptime_iso (drop_last 5 (CreationDate image_7d))
     = cutoff (utcnow env_prune []) 7.
Proof. vm_compute. repeat split. Qed.

(** C4: when the provider answers the deregistration of an old image by
    a client error, [clenup_old_ami] logs the error and returns [False]
    at once: no later image is looked at, and the records built for the
    images before it, one per image, are in no part of what is returned. *)
Theorem clenup_old_ami_refused (env : Env) (days : Z) (tr tr1 : trace)
    (pre post : list Image) (image : Image) (done : list Img.t)
    (c d : datetime) (e : exc) :
  let utc := pass_utc env days tr in
  pass_images env days tr = Ret (pre ++ image :: post) ->
  for_images env days utc pre [] (pass_start days tr) = (Ret (inl done), tr1) ->
  strptime env (drop_last 5 (CreationDate image)) = Ret c ->
  cutoff utc days = Ret d ->
  c < d ->
  deregister_image env tr1 (ImageId image) = Raise e ->
  issubclass e ClientError = true ->
  clenup_old_ami env days tr =
    (Ret PFalse,
     tr1 ++ [DeregisterImage (ImageId image) false; Log ERROR "%s" [LExc e]])
  /\ length done = length pre.
Proof.
  intros utc Himg Hpre Hc Hd Hlt Hr He. split.
  - rewrite clenup_old_ami_unfold, Himg. fold utc.
    rewrite (for_images_app _ _ _ _ _ _ _ _ _ Hpre). cbn.
    rewrite (bind_Ret _ _ _ _ _
               (clenup_body_refused env days utc image done tr1 c d e
                  Hc Hd Hlt Hr He)).
    reflexivity.
  - apply for_images_inl in Hpre as (-> & _). cbn. now rewrite length_fmap.
Qed.

Lemma clenup_old_ami_refused_witness :
  clenup_old_ami env_prune_refused 7 [] =
    (Ret PFalse,
     (pass_start 7 [] ++ [DeregisterImage "ami-9d" false])
     ++ [DeregisterImage (ImageId image_8d) false;
         Log ERROR "%s" [LExc ClientError]])
  /\ length [image_record image_9d (Some "deregistered")] = length [image_9d].
Proof.
  apply (clenup_old_ami_refused env_prune_refused 7 []
           (pass_start 7 [] ++ [DeregisterImage "ami-9d" false])
           [image_9d] [image_6d] image_8d
           [image_record image_9d (Some "deregistered")]
           63655408800000000 63655495200000000 ClientError).
  - reflexivity.
  - vm_compute. reflexivity.
  - vm_compute. reflexivity.
  - vm_compute. reflexivity.
  - lia.
  - reflexivity.
  - reflexivity.
Defined.

(** ** The orchestrator *)

Ltac break_match :=
  match goal with
  | H : context [match ?x with _ => _ end] |- _ =>
      destruct x eqn:?; try discriminate
  | |- context [match ?x with _ => _ end] =>
      destruct x eqn:?; try discriminate
  end.

Ltac inv_pairs :=
  repeat match goal with
  | H : (_, _) = (_, _) |- _ => inversion H; subst; clear H
  | H : Some _ = Some _ |- _ => inversion H; subst; clear H
  | H : Some _ = None |- _ => discriminate H
  | H : None = Some _ |- _ => discriminate H
  | H : (fun _ => _) _ = _ |- _ => cbn beta in H
  end.

Ltac crunch := repeat (first [progress inv_pairs | break_match]).

Ltac proj_trace :=
  unfold snapshots, terminations, terminated, imaged, heads, deregistered;
  rewrite ?omap_app; cbn; rewrite ?app_nil_r; try reflexivity.

Lemma py_in_accepted v : py_in v http_valid_codes = true <-> accepted v.
Proof.
  unfold accepted, py_in. destruct v as [|b|n|s].
  - split; [discriminate | intros (n & H & _); discriminate].
  - split; [destruct b; discriminate | intros (n & H & _); discriminate].
  - rewrite existsb_exists. split.
    + intros (c & Hin & Hc). cbn in Hc. apply Z.eqb_eq in Hc. subst. eauto.
    + intros (m & Hm & Hin). inversion Hm; subst. exists m. split; [exact Hin|].
      cbn. apply Z.eqb_refl.
  - split; [discriminate | intros (n & H & _); discriminate].
Qed.


(** The test of line 356, in words. *)
Lemma is_stopped_iff r :
  is_stopped r = true <->
  Result.is_socket_open r = false
  /\ ~ accepted (Result.status_code r)
  /\ Result.instance_state r = "stopped".
Proof.
  unfold is_stopped. rewrite !andb_true_iff, !negb_true_iff, String.eqb_eq.
  rewrite <- py_in_accepted, not_true_iff_false. tauto.
Qed.

Lemma check_socket_Ret env host port timeout tr b tr1 :
  check_socket env host port timeout tr = (Ret b, tr1) ->
  heads tr1 = heads tr /\ snapshots tr1 = snapshots tr
  /\ terminations tr1 = terminations tr.
Proof.
  unfold check_socket. unfold_io. intros H.
  crunch; repeat split; proj_trace.
Qed.

Lemma get_http_status_code_Ret env host port max_redirects tr v tr1 :
  get_http_status_code env host port max_redirects tr = (Ret v, tr1) ->
  exists h, host = Some h /\ heads tr1 = heads tr ++ [scheme port +:+ h].
Proof.
  unfold get_http_status_code, str_add, scheme. unfold_io. intros H.
  destruct host as [h|].
  - exists h. split; [reflexivity|].
    crunch; proj_trace.
  - crunch.
Qed.

(** One instance probed: a closed socket leaves the status code at
    [None] and makes no HTTP request. *)
Lemma probe_Ret env instance tr r tr1 :
  probe env instance tr = (Ret r, tr1) ->
  (Result.is_socket_open r = false -> Result.status_code r = VNone)
  /\ heads tr1 = heads tr ++ option_list (probed_url r)
  /\ Result.instance_id r = Inst.instance_id instance
  /\ Result.instance_name r = Inst.instance_name instance
  /\ Result.instance_fqdn r = Inst.instance_fqdn instance
  /\ Result.instance_state r = Inst.instance_state instance.
Proof.
  unfold probe. intros H.
  apply bind_inv_Ret in H as (b & tr2 & Hsock & H).
  apply check_socket_Ret in Hsock as (Hh & _).
  apply bind_inv_Ret in H as (sc & tr3 & Hsc & H).
  unfold ret in H. inversion H; subst. unfold probed_url. cbn.
  destruct b.
  - apply bind_inv_Ret in Hsc as (v & tr4 & Hget & Hsc).
    apply get_http_status_code_Ret in Hget as (h & Hhost & Hheads).
    assert (Htr : heads tr1 = heads tr4).
    { revert Hsc. unfold_io. intros Hsc.
      crunch; proj_trace. }
    rewrite Hhost, Htr, Hheads, Hh. cbn. repeat split. discriminate.
  - revert Hsc. unfold_io. intros Hsc. inversion Hsc; subst.
    repeat split. rewrite <- Hh. proj_trace.
Qed.

Lemma for_probe_Ret env instances :
  forall done tr results tr',
  for_probe env instances done tr = (Ret results, tr') ->
  exists new,
    results = done ++ new
    /\ Forall (fun r => Result.is_socket_open r = false ->
                        Result.status_code r = VNone) new
    /\ heads tr' = heads tr ++ omap probed_url new
    /\ Forall2 (fun i r => Result.instance_id r = Inst.instance_id i
                           /\ Result.instance_state r = Inst.instance_state i)
         instances new.
Proof.
  induction instances as [|i rest IH]; intros done tr results tr'; cbn.
  - intros H; inversion H; subst. exists []. rewrite !app_nil_r.
    repeat split; constructor.
  - intros H. apply bind_inv_Ret in H as (r & tr1 & Hr & H).
    apply probe_Ret in Hr as (Hnone & Hheads & Hid & _ & _ & Hst).
    apply IH in H as (new & -> & Hall & Hh & Hf2).
    exists (r :: new). rewrite <- app_assoc. repeat split.
    + now constructor.
    + rewrite Hh, Hheads. cbn. destruct (probed_url r); cbn;
        now rewrite <- app_assoc.
    + now constructor.
Qed.

(** The first loop reaches its end when every instance has an fqdn, the
    connect gives a code and the request gives a status. *)
Lemma for_probe_returns env instances :
  (forall tr host port, exists rc, connect_ex env tr host port = Ret rc) ->
  (forall tr url, exists code, session_head env tr url = Ret code) ->
  Forall (fun i => is_Some (Inst.instance_fqdn i)) instances ->
  forall done tr, exists results tr',
    for_probe env instances done tr = (Ret results, tr').
Proof.
  intros Hc Hh Hall. induction Hall as [|i rest [h Hi] _ IH];
    intros done tr; cbn.
  - eauto.
  - assert (Hp : exists r tr1, probe env i tr = (Ret r, tr1)).
    { unfold probe, check_socket, get_http_status_code, str_add. rewrite Hi.
      unfold_io. cbn.
      match goal with
      | |- context [connect_ex env ?t ?a ?b] => destruct (Hc t a b) as [rc ->]
      end.
      destruct (rc =? 0); [|eauto].
      match goal with
      | |- context [session_head env ?t ?u] => destruct (Hh t u) as [code ->]
      end.
      destruct (connection_close env _); cbn;
        repeat match goal with
               | |- context [if ?b then _ else _] => destruct b
               end; eauto. }
    destruct Hp as (r & tr1 & Hp). rewrite (bind_Ret _ _ _ _ _ Hp).
    apply IH.
Qed.

(** C10: in every record that the first loop of [main] builds, a closed
    socket comes with the status code [None]: the HTTP requests of the
    loop are exactly those of the records with an open socket.  As
    [None] is not an accepted code, the test of line 356 on such a
    record is the test that the socket is closed and the state is
    [stopped]. *)
Theorem closed_socket_no_status (env : Env) (instances : list Inst.t)
    (tr tr' : trace) (results : list Result.t) :
  for_probe env instances [] tr = (Ret results, tr') ->
  Forall (fun r => Result.is_socket_open r = false ->
                   Result.status_code r = VNone) results
  /\ heads tr' = heads tr ++ omap probed_url results
  /\ py_in VNone http_valid_codes = false
  /\ Forall (fun r =>
       is_stopped r =
         negb (Result.is_socket_open r)
         && String.eqb (Result.instance_state r) "stopped") results.
Proof.
  intros H. apply for_probe_Ret in H as (new & -> & Hall & Hh & _). cbn.
  repeat split; trivial.
  eapply Forall_impl; [exact Hall|]. cbn. intros r Hr. unfold is_stopped.
  destruct (Result.is_socket_open r); [reflexivity|].
  rewrite Hr by reflexivity. reflexivity.
Qed.

Lemma closed_socket_no_status_witness :
  let tr' := (for_probe env_fleet fleet [] []).2 in
  Forall (fun r => Result.is_socket_open r = false ->
                   Result.status_code r = VNone) fleet_results
  /\ heads tr' = heads [] ++ omap probed_url fleet_results
  /\ py_in VNone http_valid_codes = false
  /\ Forall (fun r =>
       is_stopped r =
         negb (Result.is_socket_open r)
         && String.eqb (Result.instance_state r) "stopped") fleet_results.
Proof.
  apply (closed_socket_no_status env_fleet fleet []
           (for_probe env_fleet fleet [] []).2 fleet_results).
  vm_compute. reflexivity.
Defined.

(** The records of the fleet and its one HTTP request. *)
Example for_probe_fleet :
  (for_probe env_fleet fleet [] []).1 = Ret fleet_results
  /\ heads (for_probe env_fleet fleet [] []).2 = ["http://db.example.org"].
Proof. vm_compute. split; reflexivity. Qed.

(** The snapshot: the image is requested once, for [instance_id], and no
    termination is requested. *)
Lemma create_ami_and_add_tag_Ret env instance_id instance_name tr b tr1 :
  create_ami_and_add_tag env instance_id instance_name tr = (Ret b, tr1) ->
  snapshots tr1 = snapshots tr ++ [instance_id]
  /\ terminations tr1 = terminations tr.
Proof.
  unfold create_ami_and_add_tag. unfold_io. intros H.
  crunch; split; proj_trace.
Qed.










(** The second loop reaches its end when the provider raises nothing
    and every record to retire has a name. *)
Lemma for_retire_returns env results :
  (forall tr i, exists image_id, create_image env tr i = Ret image_id) ->
  (forall tr i, waiter_wait env tr i = Ret tt) ->
  (forall tr i, create_tags env tr i = Ret tt) ->
  (forall tr i, terminate_instances env tr i = Ret tt) ->
  Forall (fun r => is_stopped r = true ->
                   is_Some (Result.instance_name r)) results ->
  forall done tr, exists results' tr',
    for_retire env results done tr = (Ret results', tr').
Proof.
  intros Hci Hw Hct Hti Hall. induction Hall as [|r rest Hr _ IH];
    intros done tr; cbn.
  - eauto.
  - assert (Hret : exists r' tr1, retire env r tr = (Ret r', tr1)).
    { unfold retire. destruct (is_stopped r); [|eauto].
      destruct (Hr eq_refl) as [n Hn].
      unfold create_ami_and_add_tag, terminate_instance. rewrite Hn.
      unfold_io.
      match goal with
      | |- context [create_image env ?t ?i] =>
          destruct (Hci t i) as [image_id ->]
      end.
      repeat (cbn;
              first [ rewrite Hw | rewrite Hti | rewrite Hct
                    | match goal with
                      | |- context [if ?b then _ else _] => destruct b
                      end ]);
        eauto. }
    destruct Hret as (r' & tr1 & Hret). rewrite (bind_Ret _ _ _ _ _ Hret).
    apply IH.
Qed.




(** Of the fleet, only the stopped instance with a closed socket is
    retired; its record then reads [terminated]. *)
Example for_retire_fleet :
  (for_retire env_fleet fleet_results [] []).1 = Ret fleet_retired
  /\ snapshots (for_retire env_fleet fleet_results [] []).2 = ["i-0a1"]
  /\ terminations (for_retire env_fleet fleet_results [] []).2 = ["i-0a1"].
Proof. vm_compute. repeat split. Qed.

(** The eight combinations of the three tests of line 356. *)
Example is_stopped_table :
  (fun '(o, sc, st) => is_stopped (result_of inst_web o sc st)) <$>
    [(false, VNone, "stopped"); (false, VNone, "running");
     (false, VInt 200, "stopped"); (false, VInt 200, "running");
     (true, VInt 503, "stopped"); (true, VInt 503, "running");
     (true, VInt 200, "stopped"); (true, VInt 200, "running")]
  = [true; false; false; false; false; false; false; false].
Proof. reflexivity. Qed.

(** ** The report formatter *)

Lemma pure_ret {S A} (a : A) : pure_on (@ret S A a).
Proof. intros s. reflexivity. Qed.

Lemma pure_raise {S A} e : pure_on (@raise S A e).
Proof. intros s. reflexivity. Qed.

Lemma pure_bind {S A B} (m : M S A) (k : A -> M S B) :
  pure_on m -> (forall a, pure_on (k a)) -> pure_on (bind m k).
Proof.
  intros Hm Hk s. unfold bind. specialize (Hm s).
  destruct (m s) as [[a|e] s']; cbn in *; subst; [apply Hk | reflexivity].
Qed.

Lemma pure_getitem {S} d k : pure_on (@getitem S d k).
Proof. unfold getitem. destruct (d !! k); [apply pure_ret | apply pure_raise]. Qed.

Lemma pure_mapM {S A B} (f : A -> M S B) l :
  (forall a, pure_on (f a)) -> pure_on (mapM f l).
Proof.
  intros Hf. induction l as [|x l IH]; cbn.
  - apply pure_ret.
  - apply pure_bind; [apply Hf|]. intros y.
    apply pure_bind; [apply IH|]. intros ys. apply pure_ret.
Qed.

Lemma pure_sorted {S} py data key reverse :
  pure_on (@sorted S py data key reverse).
Proof.
  unfold sorted. apply pure_bind.
  - apply pure_mapM. intros d. apply pure_bind; [apply pure_getitem|].
    intros k. apply pure_ret.
  - intros keyed. destruct (sortable py (fst <$> keyed)); [|apply pure_raise].
    destruct reverse; apply pure_ret.
Qed.

Lemma pure_column_width {S} data key : pure_on (@column_width S data key).
Proof.
  unfold column_width. apply pure_bind.
  - apply pure_mapM. intros d. apply pure_bind; [apply pure_getitem|].
    intros v. apply pure_ret.
  - intros [|n ns]; [apply pure_raise | apply pure_ret].
Qed.

Lemma pure_format_row {S} n pairs element :
  pure_on (@format_row S n pairs element).
Proof.
  unfold format_row. apply pure_bind.
  - apply pure_mapM. intros p. apply pure_bind; [apply pure_getitem|].
    intros v. apply pure_ret.
  - intros cells.
    destruct (Nat.eqb (length cells) n); [apply pure_ret | apply pure_raise].
Qed.

Lemma pure_format_rows {S} py n pairs data :
  pure_on (@format_rows S py n pairs data).
Proof.
  revert pairs. induction data as [|element rest IH]; intros pairs; cbn.
  - apply pure_ret.
  - apply pure_bind; [apply pure_format_row|]. intros line.
    apply pure_bind; [apply IH|]. intros lines. apply pure_ret.
Qed.

Lemma pure_load l : pure_on (load l).
Proof. intros h. unfold load. destruct (h !! l); reflexivity. Qed.

Lemma bind_snd_pure {S A B} (m : M S A) (k : A -> M S B) s :
  (forall a, pure_on (k a)) -> (bind m k s).2 = (m s).2.
Proof.
  intros Hk. unfold bind. destruct (m s) as [[a|e] s']; cbn; [apply Hk | reflexivity].
Qed.

(** Lines 295-312 read the list and change nothing. *)
Local Abbreviation render py data keys :=
  (rows <- load data ;;
   column_widths <- mapM (column_width rows) keys ;;
   let key_width_pair := zip keys column_widths in
   formatted_data <- format_rows py (length keys) key_width_pair rows ;;
   ret (String.concat "" formatted_data)).

Lemma pure_render (py : python) (data : loc) (keys : list string) :
  pure_on (render py data keys).
Proof.
  apply pure_bind; [apply pure_load|]. intros rows.
  apply pure_bind; [apply pure_mapM; intros k; apply pure_column_width|].
  intros ws. cbn zeta.
  apply pure_bind; [apply pure_format_rows|].
  intros lines. apply pure_ret.
Qed.

(** The caller's list is left as it was when a sort key is given, and
    when no header is given: the header rows then go into the sorted
    copy, or nowhere. *)
Lemma format_as_table_keeps_rows py data keys header sort_by_key reverse h rows :
  h !! data = Some rows ->
  (exists key, sort_by_key = Some key /\ key <> "")
  \/ header = None \/ header = Some [] ->
  (format_as_table py data keys header sort_by_key reverse h).2 !! data
  = Some rows.
Proof.
  intros Hrows Hcase. unfold format_as_table.
  assert (Hin : data ∈ dom h) by (apply elem_of_dom; eauto).
  assert (Hfresh : fresh (dom h) <> data).
  { intros E. apply (is_fresh (dom h)). now rewrite E. }
  (* the header rows go into the list at [d] *)
  assert (Hhead : forall d (s : heap),
    s !! data = Some rows -> (d <> data \/ header = None \/ header = Some []) ->
    ((match header with
      | Some (name :: names) =>
          list_insert0 d
            (dict_zip keys ((fun name => str_mul "-" (String.length name))
                            <$> name :: names)) ;;;
          list_insert0 d (dict_zip keys (name :: names))
      | _ => ret tt
      end ;;; render py d keys) s).2 !! data = Some rows).
  { intros d s Hs Hd. rewrite bind_snd_pure by (intros; apply pure_render).
    destruct header as [[|name names]|]; cbn; trivial.
    destruct Hd as [Hd|[Hd|Hd]]; try discriminate.
    unfold bind, list_insert0.
    destruct (s !! d) as [l|] eqn:E; cbn; trivial.
    rewrite lookup_insert_eq. cbn. now rewrite !lookup_insert_ne by auto. }
  destruct sort_by_key as [key|].
  - cbn [truthy]. destruct (String.eqb_spec key "") as [->|Hne]; cbn [negb].
    + rewrite bind_ret_l. apply Hhead; trivial.
      destruct Hcase as [(k & Hk & Hk')|Hcase]; [|auto].
      inversion Hk; subst. contradiction.
    + assert (Hload : load data h = (Ret rows, h))
        by (unfold load; now rewrite Hrows).
      pose proof (pure_sorted (S := heap) py rows key reverse h) as Hp.
      destruct (sorted py rows key reverse h) as [[rows'|e] h1] eqn:Hs;
        cbn in Hp; subst h1.
      * assert (HA : (rows0 <- load data ;;
                      rows1 <- sorted py rows0 key reverse ;; alloc rows1) h
                     = (Ret (fresh (dom h)), <[fresh (dom h) := rows']> h)).
        { rewrite (bind_Ret _ _ _ _ _ Hload).
          now rewrite (bind_Ret _ _ _ _ _ Hs). }
        rewrite (bind_Ret _ _ _ _ _ HA). apply Hhead; [|auto].
        now rewrite lookup_insert_ne.
      * assert (HA : (rows0 <- load data ;;
                      rows1 <- sorted py rows0 key reverse ;; alloc rows1) h
                     = (Raise e, h)).
        { rewrite (bind_Ret _ _ _ _ _ Hload).
          now rewrite (bind_Raise _ _ _ _ _ Hs). }
        rewrite (bind_Raise _ _ _ _ _ HA). exact Hrows.
  - rewrite bind_ret_l. apply Hhead; trivial.
    destruct Hcase as [(k & Hk & _)|Hcase]; [discriminate | auto].
Qed.

(** C8: [format_as_table], called with a header and no sort key, puts
    the header row and the divider row into the list of the caller: after
    the call the list holds four rows where it held two, under either
    interpreter.  The call itself returns the table under Python 2 and
    raises [TypeError] under Python 3. *)
Theorem format_as_table_changes_rows :
  caller_heap !! 1%positive = Some [row_x; row_zzz]
  /\ (forall py,
       (format_as_table py 1%positive ["a"; "b"] (Some ["A"; "B"]) None false
          caller_heap).2 !! 1%positive
       = Some [row_header; row_divider; row_x; row_zzz])
  /\ (format_as_table Py2 1%positive ["a"; "b"] (Some ["A"; "B"]) None false
        caller_heap).1
     = Ret (unlines ["A   B "; "-   - "; "x   yy"; "zzz w "])
  /\ (format_as_table Py3 1%positive ["a"; "b"] (Some ["A"; "B"]) None false
        caller_heap).1
     = Raise TypeError.
Proof.
  split; [reflexivity|]. split; [intros []; vm_compute; reflexivity|].
  split; vm_compute; reflexivity.
Qed.

(** A second call on the same list repeats the header in the table. *)
Example format_as_table_twice :
  let h1 := (format_as_table Py2 1%positive ["a"; "b"] (Some ["A"; "B"]) None
               false caller_heap).2 in
  (format_as_table Py2 1%positive ["a"; "b"] (Some ["A"; "B"]) None false h1).1
  = Ret (unlines ["A   B "; "-   - "; "A   B "; "-   - "; "x   yy"; "zzz w "]).
Proof. vm_compute. reflexivity. Qed.

Lemma mapM_lengths {S} (data : list dict) key (s s' : S) lens :
  mapM (fun column => v <- getitem column key ;;
                      ret (String.length (py_str v))) data s = (Ret lens, s') ->
  Forall2 (fun row n => exists v, row !! key = Some v
                                  /\ n = String.length (py_str v)) data lens.
Proof.
  revert s s' lens. induction data as [|row data IH]; intros s s' lens; cbn.
  - intros H; inversion H. constructor.
  - intros H. apply bind_inv_Ret in H as (n & s1 & Hn & H).
    apply bind_inv_Ret in H as (ns & s2 & Hns & H).
    unfold ret in H. inversion H; subst. constructor; [|eapply IH; eauto].
    unfold getitem in Hn. unfold_io. destruct (row !! key) as [v|]; [|discriminate].
    inversion Hn; subst. eauto.
Qed.

Lemma foldl_max_ge n ns : (n <= foldl Nat.max n ns)%nat.
Proof.
  revert n. induction ns as [|m ns IH]; intros n; cbn; [lia|].
  specialize (IH (Nat.max n m)). lia.
Qed.

Lemma foldl_max_bound n ns m : In m ns -> (m <= foldl Nat.max n ns)%nat.
Proof.
  revert n. induction ns as [|k ns IH]; intros n; cbn; [intros []|].
  intros [->|Hin]; [|now apply IH].
  pose proof (foldl_max_ge (Nat.max n m) ns). lia.
Qed.

Lemma foldl_max_In n ns : In (foldl Nat.max n ns) (n :: ns).
Proof.
  revert n. induction ns as [|k ns IH]; intros n; cbn; [auto|].
  destruct (IH (Nat.max n k)) as [E|Hin]; [|auto].
  rewrite <- E. destruct (Nat.max_spec n k) as [[_ ->]|[_ ->]]; auto.
Qed.

(** The width of a column is the greatest length of [str] of its field
    over all rows of the table: no row is wider, and one row is as wide. *)
Lemma column_width_max {S} (data : list dict) key (s s' : S) w :
  column_width data key s = (Ret w, s') ->
  (forall row, In row data ->
     exists v, row !! key = Some v /\ (String.length (py_str v) <= w)%nat)
  /\ (exists row v, In row data /\ row !! key = Some v
                    /\ String.length (py_str v) = w).
Proof.
  unfold column_width. intros H.
  apply bind_inv_Ret in H as (lens & s1 & Hl & H).
  apply mapM_lengths in Hl.
  destruct lens as [|n ns]; [discriminate|]. unfold ret in H. inversion H; subst.
  split.
  - intros row Hin. apply list_elem_of_In in Hin.
    apply list_elem_of_lookup_1 in Hin as [i Hi].
    destruct (Forall2_lookup_l _ _ _ _ _ Hl Hi) as (m & Hm & v & Hv & ->).
    exists v. split; [exact Hv|].
    apply list_elem_of_lookup_2, list_elem_of_In in Hm. destruct Hm as [<-|Hm].
    + apply foldl_max_ge.
    + now apply foldl_max_bound.
  - pose proof (foldl_max_In n ns) as Hin. apply list_elem_of_In in Hin.
    apply list_elem_of_lookup_1 in Hin as [i Hi].
    destruct (Forall2_lookup_r _ _ _ _ _ Hl Hi) as (row & Hrow & v & Hv & Hw).
    exists row, v. repeat split; auto.
    apply list_elem_of_In. eapply list_elem_of_lookup_2; eauto.
Qed.

(** C9: for the rows [{a: x, b: yy}] and [{a: zzz, b: w}], the keys
    [a], [b], the header [A], [B] and a descending sort by [a], the table
    that [format_as_table] builds is made of the header row, the divider
    row, the [zzz] row and the [x] row, in this order, and the widths
    computed for the columns [a] and [b] are 3 and 2, under either
    interpreter.  Under Python 2 the call returns the four lines, every
    cell padded to the width of its column; under Python 3 it renders
    the header row, finds [key_width_pair] exhausted at the divider row
    and raises [TypeError]: no text is returned. *)
Theorem format_as_table_example :
  let run py := format_as_table py 1%positive ["a"; "b"] (Some ["A"; "B"])
                  (Some "a") true caller_heap in
  let table := [row_header; row_divider; row_zzz; row_x] in
  (forall py,
     (run py).2 = <[2%positive := table]> caller_heap
     /\ mapM (column_width table) ["a"; "b"] (run py).2
        = (Ret [3; 2]%nat, (run py).2))
  /\ (run Py2).1 = Ret (unlines ["A   B "; "-   - "; "zzz w "; "x   yy"])
  /\ (run Py3).1 = Raise TypeError
  /\ format_rows Py3 2 [("a", 3%nat); ("b", 2%nat)] [row_header] caller_heap
     = (Ret ["A   B " +:+ newline], caller_heap)
  /\ (format_rows Py3 2 [("a", 3%nat); ("b", 2%nat)] [row_header; row_divider]
        caller_heap).1
     = Raise TypeError.
Proof.
  cbv zeta. split; [intros []; vm_compute; split; reflexivity|].
  repeat split; vm_compute; reflexivity.
Qed.

(** ** A whole run *)

(** One stopped instance with a closed socket: the image is requested,
    awaited and tagged, then the instance is terminated and awaited, and
    the report shows it as [terminated]. *)
Example main_one_stopped :
  (main env_one_stopped Py2 []).1 = Ret tt
  /\ provider_calls (main env_one_stopped Py2 []).2 =
       [InstancesFilter [("tag:Name", ["egor*"]); ("instance-state-name", ["*"])];
        CreateImage "i-0a1" "egor-web - 2018-03-08-10-00-00"
          "Autocreated image: egor-web - 2018-03-08-10-00-00" true false;
        WaitImageAvailable "ami-1";
        CreateTags "ami-1" [("Name", "EgorAMI")];
        TerminateInstances "i-0a1" false;
        WaitInstanceTerminated "i-0a1";
        DescribeImages ["self"] [("name", ["egor*"])]]
  /\ In (Log INFO
           (newline +:+ unlines
              ["instance_name instance_fqdn   instance_id is_socket_open status_code instance_state";
               "------------- -------------   ----------- -------------- ----------- --------------";
               "egor-web      web.example.org i-0a1       False          None        terminated    "])
           [])
        (main env_one_stopped Py2 []).2.
Proof.
  vm_compute. repeat split. do 23 right. left. reflexivity.
Qed.

(** The same run under Python 3: the instance is retired all the same,
    then the report, which has a header, is a [TypeError] and the run
    ends with it. *)
Example main_one_stopped_py3 :
  (main env_one_stopped Py3 []).1 = Raise TypeError
  /\ provider_calls (main env_one_stopped Py3 []).2
     = provider_calls (main env_one_stopped Py2 []).2.
Proof. vm_compute. split; reflexivity. Qed.

(** * Further properties *)

(** ** What the functions add to the trace *)

Lemma emits_ret {A} P (a : A) : emits P (ret a).
Proof. intros tr. exists []. cbn. now rewrite app_nil_r. Qed.

Lemma emits_raise {A} P e : emits P (@raise trace A e).
Proof. intros tr. exists []. cbn. now rewrite app_nil_r. Qed.

Lemma emits_lift {A} P (r : res A) : emits P (lift r).
Proof. intros tr. exists []. cbn. now rewrite app_nil_r. Qed.

Lemma emits_emit P ev : P ev -> emits P (emit ev).
Proof. intros H tr. exists [ev]. cbn. split; [reflexivity | now constructor]. Qed.

Lemma emits_logger P lvl fmt args :
  P (Log lvl fmt args) -> emits P (logger lvl fmt args).
Proof. apply emits_emit. Qed.

Lemma emits_logger_exc P lvl e :
  P (Log lvl "%s" [LExc e]) -> emits P (logger_exc lvl e).
Proof. apply emits_emit. Qed.

Lemma emits_call {A} P ev (answer : trace -> res A) :
  P ev -> emits P (call ev answer).
Proof. intros H tr. exists [ev]. cbn. split; [reflexivity | now constructor]. Qed.

Lemma emits_bind {A B} P (m : IO A) (k : A -> IO B) :
  emits P m -> (forall a, emits P (k a)) -> emits P (bind m k).
Proof.
  intros Hm Hk tr. unfold bind. destruct (Hm tr) as (evs & E & Hevs).
  destruct (m tr) as [[a|e] tr1]; cbn in E; subst tr1.
  - destruct (Hk a (tr ++ evs)) as (evs' & E' & Hevs').
    exists (evs ++ evs'). rewrite E', <- app_assoc. split; [reflexivity|].
    apply Forall_app; auto.
  - eauto.
Qed.

Lemma emits_try_except {A} P (m : IO A) (h : exc -> option (IO A)) :
  emits P m -> (forall e k, h e = Some k -> emits P k) ->
  emits P (try_except m h).
Proof.
  intros Hm Hh tr. unfold try_except. destruct (Hm tr) as (evs & E & Hevs).
  destruct (m tr) as [[a|e] tr1]; cbn in E; subst tr1.
  - eauto.
  - destruct (h e) as [k|] eqn:Hk; [|eauto].
    destruct (Hh e k Hk (tr ++ evs)) as (evs' & E' & Hevs').
    exists (evs ++ evs'). rewrite E', <- app_assoc. split; [reflexivity|].
    apply Forall_app; auto.
Qed.

Lemma emits_with_closing {A} P (body : IO A) :
  P SocketClose -> emits P body -> emits P (with_closing body).
Proof.
  intros Hc Hb tr. unfold with_closing. destruct (Hb tr) as (evs & E & Hevs).
  destruct (body tr) as [r tr1]; cbn in E; subst tr1.
  exists (evs ++ [SocketClose]). cbn. rewrite <- app_assoc.
  split; [reflexivity|]. apply Forall_app. split; [exact Hevs | now constructor].
Qed.

Lemma emits_impl {A} (P Q : event -> Prop) (m : IO A) :
  (forall ev, P ev -> Q ev) -> emits P m -> emits Q m.
Proof.
  intros HPQ Hm tr. destruct (Hm tr) as (evs & E & Hevs).
  exists evs. split; [exact E|]. eapply Forall_impl; eauto.
Qed.

(** Steps of a proof that a function adds only events of one kind. *)
Ltac emits_handler :=
  repeat match goal with
  | H : (if ?b then _ else _) = Some _ |- _ => destruct b
  | H : Some _ = Some _ |- _ => inversion H; subst; clear H
  | H : None = Some _ |- _ => discriminate H
  end.

Ltac emits_step :=
  lazymatch goal with
  | |- emits _ (ret _) => apply emits_ret
  | |- emits _ (raise _) => apply emits_raise
  | |- emits _ (lift _) => apply emits_lift
  | |- emits _ (logger _ _ _) => apply emits_logger; reflexivity
  | |- emits _ (logger_exc _ _) => apply emits_logger_exc; reflexivity
  | |- emits _ (emit _) => apply emits_emit; reflexivity
  | |- emits _ (call _ _) => apply emits_call; reflexivity
  | |- emits _ (with_closing _) => apply emits_with_closing; [reflexivity|]
  | |- emits _ (bind _ _) => apply emits_bind; [|intros ?]
  | |- emits _ (try_except _ _) =>
      apply emits_try_except; [|intros ? ? ?; emits_handler]
  | |- emits _ (if ?b then _ else _) => destruct b
  | |- emits _ (match ?x with _ => _ end) => destruct x
  end.

Lemma emits_check_socket env host port timeout :
  emits (fun ev => is_probe_event ev = true) (check_socket env host port timeout).
Proof. unfold check_socket. repeat emits_step. Qed.

Lemma emits_get_http_status_code env host port max_redirects :
  emits (fun ev => is_probe_event ev = true)
    (get_http_status_code env host port max_redirects).
Proof. unfold get_http_status_code, str_add. repeat emits_step. Qed.

Lemma emits_probe env instance :
  emits (fun ev => is_probe_event ev = true) (probe env instance).
Proof.
  unfold probe. cbn zeta.
  apply emits_bind; [apply emits_check_socket|]. intros b.
  apply emits_bind; [|intros; apply emits_ret].
  destruct b; [|repeat emits_step].
  apply emits_bind; [apply emits_get_http_status_code|]. intros v.
  repeat emits_step.
Qed.

Lemma provider_calls_app tr1 tr2 :
  provider_calls (tr1 ++ tr2) = provider_calls tr1 ++ provider_calls tr2.
Proof. apply List.filter_app. Qed.

Lemma provider_calls_probe_events evs :
  Forall (fun ev => is_probe_event ev = true) evs -> provider_calls evs = [].
Proof.
  induction 1 as [|ev evs Hev _ IH]; [reflexivity|].
  unfold provider_calls in *. cbn. rewrite IH.
  destruct ev; cbn in *; congruence.
Qed.

(** The first loop of [main] talks to the hosts and to the log only:
    whether it reaches its end or raises, every event it adds to the
    trace is a log line, a socket operation or an HTTP request, so the
    provider is not called. *)
Theorem for_probe_only_probes (env : Env) (instances : list Inst.t)
    (done : list Result.t) (tr : trace) :
  exists evs,
    (for_probe env instances done tr).2 = tr ++ evs
    /\ Forall (fun ev => is_probe_event ev = true) evs
    /\ provider_calls (for_probe env instances done tr).2 = provider_calls tr.
Proof.
  assert (H : emits (fun ev => is_probe_event ev = true)
                (for_probe env instances done)).
  { revert done. induction instances as [|i rest IH]; intros done; cbn.
    - apply emits_ret.
    - apply emits_bind; [apply emits_probe | intros r; apply IH]. }
  destruct (H tr) as (evs & E & Hevs). exists evs. repeat split; trivial.
  rewrite E, provider_calls_app, (provider_calls_probe_events evs Hevs).
  apply app_nil_r.
Qed.

Lemma emits_clenup_body env days utc image results :
  emits (fun ev => is_prune_event ev = true)
    (clenup_body env days utc image results).
Proof. unfold clenup_body. cbn zeta. repeat emits_step. Qed.

Lemma emits_for_images env days utc images :
  forall results,
  emits (fun ev => is_prune_event ev = true)
    (for_images env days utc images results).
Proof.
  induction images as [|image rest IH]; intros results; cbn.
  - apply emits_ret.
  - apply emits_bind; [apply emits_clenup_body|].
    intros [results'|v]; [apply IH | apply emits_ret].
Qed.

Lemma emits_clenup_old_ami env days :
  emits (fun ev => is_prune_event ev = true) (clenup_old_ami env days).
Proof.
  unfold clenup_old_ami, get_owned_images.
  apply emits_bind; [emits_step|]. intros _.
  apply emits_bind; [emits_step|]. intros utc.
  apply emits_bind; [emits_step|]. intros images.
  apply emits_bind; [apply emits_for_images|].
  intros [results|v]; apply emits_ret.
Qed.

Lemma projection_unchanged {X} (f : event -> option X) (P : event -> bool) evs :
  (forall ev, P ev = true -> f ev = None) ->
  Forall (fun ev => P ev = true) evs -> omap f evs = [].
Proof.
  intros Hf. induction 1 as [|ev evs Hev _ IH]; [reflexivity|].
  cbn. now rewrite (Hf ev Hev), IH.
Qed.

(** The pruner touches images only: whether a pass returns its list,
    returns [False] or raises, every event it adds to the trace is a log
    line, the reading of the clock, the listing of the images or the
    deregistration of an image; it requests no image and terminates no
    instance. *)
Theorem clenup_old_ami_only_images (env : Env) (days : Z) (tr : trace) :
  exists evs,
    (clenup_old_ami env days tr).2 = tr ++ evs
    /\ Forall (fun ev => is_prune_event ev = true) evs
    /\ snapshots (clenup_old_ami env days tr).2 = snapshots tr
    /\ terminations (clenup_old_ami env days tr).2 = terminations tr.
Proof.
  destruct (emits_clenup_old_ami env days tr) as (evs & E & Hevs).
  exists evs. rewrite E. repeat split; trivial.
  - unfold snapshots. rewrite omap_app.
    rewrite (projection_unchanged _ is_prune_event evs); [apply app_nil_r| |exact Hevs].
    intros ev; destruct ev; cbn; congruence.
  - unfold terminations. rewrite omap_app.
    rewrite (projection_unchanged _ is_prune_event evs); [apply app_nil_r| |exact Hevs].
    intros ev; destruct ev; cbn; congruence.
Qed.

Lemma emits_for_instances instances :
  forall results,
  emits (fun ev => is_listing_event ev = true) (for_instances instances results).
Proof.
  induction instances as [|i rest IH]; intros results; cbn.
  - apply emits_ret.
  - apply emits_bind; [|intros r; apply IH].
    unfold instance_record. destruct (i_tags i); [|apply emits_raise].
    destruct (read_tags _ _ _). apply emits_ret.
Qed.

Lemma emits_get_instances env key value state :
  emits (fun ev => is_listing_event ev = true) (get_instances env key value state).
Proof.
  unfold get_instances. cbn zeta.
  apply emits_bind; [repeat emits_step|].
  intros [[yielded failure]|]; [|apply emits_raise].
  apply emits_bind; [apply emits_for_instances|]. intros results.
  destruct failure; [apply emits_raise | apply emits_ret].
Qed.

(** ** The lifecycle actuator *)

Ltac calls_norm :=
  rewrite ?provider_calls_app; cbn;
  rewrite ?app_nil_r, <- ?app_assoc; cbn; try reflexivity.

(** When [create_ami_and_add_tag] returns, the instance had a name, the
    image was requested without reboot under the name made of the
    instance name and the time, its availability was awaited, and then,
    only when the image id is not empty, it was tagged; the function
    returns [True] exactly in that case, and the wait is made even for an
    empty image id. *)
Theorem create_ami_and_add_tag_calls (env : Env) (instance_id : string)
    (instance_name : option string) (tr tr1 : trace) (b : bool) :
  create_ami_and_add_tag env instance_id instance_name tr = (Ret b, tr1) ->
  exists n image_id,
    instance_name = Some n
    /\ create_image env (tr ++ [DatetimeNow]) instance_id = Ret image_id
    /\ b = negb (String.eqb image_id "")
    /\ provider_calls tr1 =
         provider_calls tr ++
         [CreateImage instance_id (image_name_of env tr n)
            (image_description_of env tr n) true false;
          WaitImageAvailable image_id]
         ++ (if b then [CreateTags image_id [("Name", "EgorAMI")]] else []).
Proof.
  unfold create_ami_and_add_tag, image_description_of, image_name_of.
  unfold_io. intros H. destruct instance_name as [n|]; [|discriminate].
  exists n.
  destruct (create_image env (tr ++ [DatetimeNow]) instance_id) as [image_id|];
    [|discriminate].
  exists image_id. cbn in H.
  destruct (waiter_wait env _ image_id); [|discriminate].
  destruct (String.eqb image_id "") eqn:E; cbn in H.
  - inversion H; subst. repeat split.
    calls_norm.
  - destruct (create_tags env _ image_id); [|discriminate].
    inversion H; subst. repeat split.
    calls_norm.
Qed.

Lemma create_ami_and_add_tag_calls_witness :
  exists n image_id,
    Some "egor-web" = Some n
    /\ create_image env_no_image_id ([] ++ [DatetimeNow]) "i-0a1" = Ret image_id
    /\ false = negb (String.eqb image_id "")
    /\ provider_calls
         (create_ami_and_add_tag env_no_image_id "i-0a1" (Some "egor-web") []).2 =
         provider_calls [] ++
         [CreateImage "i-0a1" (image_name_of env_no_image_id [] n)
            (image_description_of env_no_image_id [] n) true false;
          WaitImageAvailable image_id]
         ++ (if false then [CreateTags image_id [("Name", "EgorAMI")]] else []).
Proof.
  apply (create_ami_and_add_tag_calls env_no_image_id "i-0a1" (Some "egor-web") []
           (create_ami_and_add_tag env_no_image_id "i-0a1" (Some "egor-web") []).2
           false).
  vm_compute. reflexivity.
Defined.

(** [terminate_instance] always sends the request for termination, with
    [DryRun=False]; it waits for the termination only when the request
    was accepted; it returns [True] when request and wait both succeed,
    [False] when one of them raises a [ClientError], and raises any other
    error of theirs, the error of the waiter among them. *)
Theorem terminate_instance_cases (env : Env) (instance_id : string) (tr : trace) :
  let tr0 := tr ++ [Log INFO "Terminating old instance %s"
                      [LVal (VStr instance_id)]] in
  let tr1 := tr0 ++ [TerminateInstances instance_id false;
                     Log INFO "Waiting while instance %s to be terminated..."
                       [LVal (VStr instance_id)]] in
  let caught e :=
    if issubclass e ClientError then Ret false else Raise e in
  (terminate_instance env instance_id tr).1 =
    match terminate_instances env tr0 instance_id with
    | Ret _ =>
        match waiter_wait env tr1 instance_id with
        | Ret _ => Ret true
        | Raise e => caught e
        end
    | Raise e => caught e
    end
  /\ provider_calls (terminate_instance env instance_id tr).2 =
       provider_calls tr ++
       TerminateInstances instance_id false ::
       match terminate_instances env tr0 instance_id with
       | Ret _ => [WaitInstanceTerminated instance_id]
       | Raise _ => []
       end
  /\ issubclass WaiterError ClientError = false.
Proof.
  cbn zeta. unfold terminate_instance. unfold_io. cbn.
  rewrite <- !app_assoc. cbn.
  destruct (terminate_instances env _ instance_id) as [[]|e]; cbn.
  - match goal with
    | |- context [waiter_wait env ?t ?i] => destruct (waiter_wait env t i) as [[]|e]
    end; cbn.
    + repeat split. calls_norm.
    + destruct (issubclass e ClientError); cbn; repeat split;
        calls_norm.
  - destruct (issubclass e ClientError); cbn; repeat split;
      calls_norm.
Qed.

(** ** The orchestrator *)

Lemma emits_create_ami_and_add_tag env instance_id instance_name :
  emits (fun ev => is_snapshot_event ev = true)
    (create_ami_and_add_tag env instance_id instance_name).
Proof. unfold create_ami_and_add_tag. cbn zeta. repeat emits_step. Qed.

Lemma create_ami_and_add_tag_no_termination env instance_id instance_name tr :
  terminations (create_ami_and_add_tag env instance_id instance_name tr).2
  = terminations tr.
Proof.
  destruct (emits_create_ami_and_add_tag env instance_id instance_name tr)
    as (evs & -> & Hevs).
  unfold terminations. rewrite omap_app.
  rewrite (projection_unchanged _ is_snapshot_event evs); [apply app_nil_r| |exact Hevs].
  intros ev; destruct ev; cbn; congruence.
Qed.

(** The image is requested at most once, and for [instance_id]. *)
Lemma create_ami_and_add_tag_snapshots env instance_id instance_name tr :
  exists l, snapshots (create_ami_and_add_tag env instance_id instance_name tr).2
            = snapshots tr ++ l
            /\ l `prefix_of` [instance_id].
Proof.
  unfold create_ami_and_add_tag. unfold_io.
  destruct instance_name as [n|].
  - exists [instance_id]. split; [|reflexivity].
    repeat break_match; cbn; proj_trace.
  - exists []. split; [cbn; proj_trace | apply prefix_nil].
Qed.

(** The termination is always requested, once, and no image is. *)
Lemma terminate_instance_terminations env instance_id tr :
  terminations (terminate_instance env instance_id tr).2
  = terminations tr ++ [instance_id]
  /\ snapshots (terminate_instance env instance_id tr).2 = snapshots tr.
Proof.
  unfold terminate_instance. unfold_io.
  crunch; cbn; split; proj_trace.
Qed.

(** When the snapshot of an instance raises, the waiter that gives up or
    any error of the provider, [retire] raises the same error and the
    instance is not terminated. *)
Theorem retire_snapshot_raises (env : Env) (r : Result.t) (tr tr1 : trace)
    (e : exc) :
  is_stopped r = true ->
  create_ami_and_add_tag env (Result.instance_id r) (Result.instance_name r) tr
    = (Raise e, tr1) ->
  retire env r tr = (Raise e, tr1)
  /\ terminations tr1 = terminations tr.
Proof.
  intros Hs Hc. unfold retire. rewrite Hs. split.
  - now rewrite (bind_Raise _ _ _ _ _ Hc).
  - pose proof (create_ami_and_add_tag_no_termination env (Result.instance_id r)
                  (Result.instance_name r) tr) as H.
    now rewrite Hc in H.
Qed.

Lemma retire_snapshot_raises_witness :
  retire env_wait_fails result_web [] =
    (Raise WaiterError,
     (create_ami_and_add_tag env_wait_fails "i-0a1" (Some "egor-web") []).2)
  /\ terminations
       (create_ami_and_add_tag env_wait_fails "i-0a1" (Some "egor-web") []).2
     = terminations [].
Proof.
  apply (retire_snapshot_raises env_wait_fails result_web []
           (create_ami_and_add_tag env_wait_fails "i-0a1" (Some "egor-web") []).2
           WaiterError).
  - reflexivity.
  - vm_compute. reflexivity.
Defined.

(** The result of [create_ami_and_add_tag] is not looked at: when it
    returns [False], for want of an image id, the termination of the
    instance is requested all the same. *)
Theorem retire_terminates_without_image (env : Env) (r : Result.t)
    (tr tr1 : trace) :
  is_stopped r = true ->
  create_ami_and_add_tag env (Result.instance_id r) (Result.instance_name r) tr
    = (Ret false, tr1) ->
  terminations (retire env r tr).2 = terminations tr ++ [Result.instance_id r]
  /\ forall image_id tags, ~ In (CreateTags image_id tags) (provider_calls tr1)
                           \/ In (CreateTags image_id tags) (provider_calls tr).
Proof.
  intros Hs Hc. split.
  - unfold retire. rewrite Hs, (bind_Ret _ _ _ _ _ Hc).
    rewrite bind_snd_pure by (intros []; apply pure_ret).
    pose proof (terminate_instance_terminations env (Result.instance_id r) tr1)
      as [Ht _].
    pose proof (create_ami_and_add_tag_no_termination env (Result.instance_id r)
                  (Result.instance_name r) tr) as Hn.
    rewrite Hc in Hn. rewrite Ht. f_equal. exact Hn.
  - intros image_id tags.
    apply create_ami_and_add_tag_calls in Hc as (n & i & _ & _ & _ & ->).
    destruct (in_dec event_eq_dec (CreateTags image_id tags) (provider_calls tr))
      as [Hin|Hout]; [now right|left].
    rewrite !in_app_iff. cbn. intros [H|[[H|[H|[]]]|[]]]; try discriminate.
    contradiction.
Qed.

Lemma retire_terminates_without_image_witness :
  terminations (retire env_no_image_id result_web []).2
  = terminations [] ++ [Result.instance_id result_web]
  /\ forall image_id tags,
       ~ In (CreateTags image_id tags)
           (provider_calls
              (create_ami_and_add_tag env_no_image_id "i-0a1" (Some "egor-web") []).2)
       \/ In (CreateTags image_id tags) (provider_calls []).
Proof.
  apply (retire_terminates_without_image env_no_image_id result_web []
           (create_ami_and_add_tag env_no_image_id "i-0a1" (Some "egor-web") []).2).
  - reflexivity.
  - vm_compute. reflexivity.
Defined.

(** A record that passes the test of line 356 but has no name cannot be
    retired: [retire] raises [TypeError] when it builds the name of the
    image, before any call to the provider. *)
Theorem retire_nameless (env : Env) (r : Result.t) (tr : trace) :
  is_stopped r = true ->
  Result.instance_name r = None ->
  retire env r tr = (Raise TypeError, tr ++ [DatetimeNow])
  /\ provider_calls (retire env r tr).2 = provider_calls tr.
Proof.
  intros Hs Hn.
  assert (E : retire env r tr = (Raise TypeError, tr ++ [DatetimeNow])).
  { unfold retire, create_ami_and_add_tag. rewrite Hs, Hn. reflexivity. }
  split; [exact E|]. rewrite E. cbn. calls_norm.
Qed.

Lemma retire_nameless_witness :
  retire env_fleet result_nameless [] = (Raise TypeError, [] ++ [DatetimeNow])
  /\ provider_calls (retire env_fleet result_nameless []).2 = provider_calls [].
Proof.
  apply (retire_nameless env_fleet result_nameless []); reflexivity.
Defined.

(** What [retire] does to a record: a record that fails the test is
    returned as it is and nothing is added to the trace; a record that
    passes it comes back with the state [terminated] when
    [terminate_instance] returned [True] and unchanged when it returned
    [False]; no other field is ever changed. *)
Theorem retire_record (env : Env) (r r' : Result.t) (tr tr1 : trace) :
  retire env r tr = (Ret r', tr1) ->
  (is_stopped r = false -> r' = r /\ tr1 = tr)
  /\ (is_stopped r = true ->
      exists b tr0,
        terminate_instance env (Result.instance_id r) tr0 = (Ret b, tr1)
        /\ r' = if b then set_instance_state r "terminated" else r)
  /\ set_instance_state r' (Result.instance_state r) = r.
Proof.
  unfold retire. destruct (is_stopped r).
  - intros H. apply bind_inv_Ret in H as (c & tr0 & _ & H).
    apply bind_inv_Ret in H as (b & tr2 & Ht & H).
    assert (r' = (if b then set_instance_state r "terminated" else r) /\ tr2 = tr1)
      as [-> ->] by (destruct b; unfold ret in H; inversion H; auto).
    split; [discriminate|]. split; [eauto|]. destruct b, r; reflexivity.
  - unfold ret. intros H; inversion H; subst.
    split; [auto|]. split; [discriminate | destruct r'; reflexivity].
Qed.

Lemma retire_record_witness :
  (is_stopped result_web = false ->
   result_web = result_web
   /\ (retire env_no_terminate result_web []).2 = [])
  /\ (is_stopped result_web = true ->
      exists b tr0,
        terminate_instance env_no_terminate (Result.instance_id result_web) tr0
          = (Ret b, (retire env_no_terminate result_web []).2)
        /\ result_web = if b then set_instance_state result_web "terminated"
                        else result_web)
  /\ set_instance_state result_web (Result.instance_state result_web) = result_web.
Proof.
  apply (retire_record env_no_terminate result_web result_web []
           (retire env_no_terminate result_web []).2).
  vm_compute. reflexivity.
Defined.

Lemma bind_snd {S A B} (m : M S A) (k : A -> M S B) s :
  (bind m k s).2 =
    match m s with
    | (Ret a, s') => (k a s').2
    | (Raise _, s') => s'
    end.
Proof. unfold bind. destruct (m s) as [[a|e] s']; reflexivity. Qed.

(** One record in the second loop, whatever the outcome: the image is
    requested before the termination, and both only for a record that
    passes the test. *)
Lemma retire_any env r tr :
  let want := if is_stopped r then [Result.instance_id r] else [] in
  exists l1 l2,
    snapshots (retire env r tr).2 = snapshots tr ++ l1
    /\ terminations (retire env r tr).2 = terminations tr ++ l2
    /\ l2 `prefix_of` l1 /\ l1 `prefix_of` want
    /\ (forall r', (retire env r tr).1 = Ret r' -> l1 = want /\ l2 = want).
Proof.
  cbn zeta. unfold retire. destruct (is_stopped r).
  - destruct (create_ami_and_add_tag env (Result.instance_id r)
                (Result.instance_name r) tr) as [[b|e] tr1] eqn:Hc.
    + rewrite (bind_Ret _ _ _ _ _ Hc).
      apply create_ami_and_add_tag_Ret in Hc as (Hs & Ht).
      destruct (terminate_instance_terminations env (Result.instance_id r) tr1)
        as (Ht' & Hs').
      exists [Result.instance_id r], [Result.instance_id r].
      rewrite bind_snd_pure by (intros []; apply pure_ret).
      rewrite Hs', Ht', Hs, Ht. repeat split; reflexivity.
    + rewrite (bind_Raise _ _ _ _ _ Hc).
      destruct (create_ami_and_add_tag_snapshots env (Result.instance_id r)
                  (Result.instance_name r) tr) as (l & Hl & Hpre).
      pose proof (create_ami_and_add_tag_no_termination env (Result.instance_id r)
                    (Result.instance_name r) tr) as Hn.
      rewrite Hc in Hl, Hn. exists l, [].
      cbn [snd] in Hl, Hn |- *. rewrite Hl, Hn, app_nil_r.
      split; [reflexivity|]. split; [reflexivity|].
      split; [apply prefix_nil|]. split; [exact Hpre|].
      intros r' H. cbn in H. discriminate.
  - exists [], []. cbn. rewrite !app_nil_r. repeat split; reflexivity.
Qed.

Lemma for_retire_any env results :
  forall done tr,
  exists l1 l2,
    snapshots (for_retire env results done tr).2 = snapshots tr ++ l1
    /\ terminations (for_retire env results done tr).2 = terminations tr ++ l2
    /\ l2 `prefix_of` l1
    /\ l1 `prefix_of` (Result.instance_id <$> List.filter is_stopped results).
Proof.
  induction results as [|r rest IH]; intros done tr.
  - exists [], []. cbn. rewrite !app_nil_r. repeat split; reflexivity.
  - destruct (retire_any env r tr) as (l1 & l2 & Hs & Ht & H21 & H1 & Hret).
    cbn [for_retire]. rewrite bind_snd.
    destruct (retire env r tr) as [[r'|e] tr1] eqn:Hr;
      cbn [snd fst] in Hs, Ht, Hret.
    + destruct (Hret r' eq_refl) as [-> ->].
      destruct (IH (done ++ [r']) tr1) as (k1 & k2 & Hs' & Ht' & K21 & K1).
      exists ((if is_stopped r then [Result.instance_id r] else []) ++ k1),
             ((if is_stopped r then [Result.instance_id r] else []) ++ k2).
      rewrite Hs', Ht', Hs, Ht, <- !app_assoc. repeat split.
      * now apply prefix_app.
      * cbn [List.filter]. destruct (is_stopped r); cbn; [|exact K1].
        now apply (prefix_app [_]).
    + exists l1, l2. repeat split; trivial.
      etransitivity; [exact H1|].
      cbn [List.filter]. destruct (is_stopped r); cbn.
      * apply (prefix_app_r [_] [_] _). reflexivity.
      * apply prefix_nil.
Qed.

(** The second loop of [main], whether it reaches its end or raises on
    the way: the instances for which an image was requested are the
    first ones, in order, of those that pass the test of line 356, and
    the instances for which termination was requested are the first ones
    of these; so no instance is terminated that fails the test, or for
    which no image was requested first. *)
Theorem for_retire_prefix (env : Env) (results done : list Result.t)
    (tr : trace) :
  exists l1 l2,
    snapshots (for_retire env results done tr).2 = snapshots tr ++ l1
    /\ terminations (for_retire env results done tr).2 = terminations tr ++ l2
    /\ l2 `prefix_of` l1
    /\ l1 `prefix_of` (Result.instance_id <$> List.filter is_stopped results).
Proof. apply for_retire_any. Qed.

(** ** A whole run: which instances can be terminated *)

Lemma emits_for_probe env instances :
  forall done,
  emits (fun ev => is_probe_event ev = true) (for_probe env instances done).
Proof.
  induction instances as [|i rest IH]; intros done; cbn.
  - apply emits_ret.
  - apply emits_bind; [apply emits_probe | intros r; apply IH].
Qed.

(** A computation that adds events of a kind that holds no request for
    an image and no request for termination leaves both lists alone. *)
Lemma emits_keeps_actuations {A} (P : event -> bool) (m : IO A) tr :
  (forall ev, P ev = true ->
     match ev with
     | CreateImage _ _ _ _ _ | TerminateInstances _ _ => False
     | _ => True
     end) ->
  emits (fun ev => P ev = true) m ->
  snapshots (m tr).2 = snapshots tr /\ terminations (m tr).2 = terminations tr.
Proof.
  intros HP Hm. destruct (Hm tr) as (evs & -> & Hevs).
  unfold snapshots, terminations. rewrite !omap_app.
  rewrite !(projection_unchanged _ P evs); trivial.
  - now rewrite !app_nil_r.
  - intros ev Hev. specialize (HP ev Hev). destruct ev; cbn; tauto.
  - intros ev Hev. specialize (HP ev Hev). destruct ev; cbn; tauto.
Qed.

Lemma for_instances_Ret instances :
  forall results tr rs tr',
  for_instances instances results tr = (Ret rs, tr') ->
  exists new, rs = results ++ new /\ Forall2 record_matches instances new.
Proof.
  induction instances as [|i rest IH]; intros results tr rs tr'; cbn.
  - intros H; inversion H; subst. exists []. rewrite app_nil_r.
    split; [reflexivity | constructor].
  - intros H. apply bind_inv_Ret in H as (r & tr1 & Hr & H).
    destruct (i_tags i) as [tags|] eqn:Htags.
    + destruct (instance_record_tagged i tags tr Htags) as (r0 & Hr0 & Hm).
      rewrite Hr0 in Hr. inversion Hr; subst.
      apply IH in H as (new & -> & Hall).
      exists (r :: new). rewrite <- app_assoc. split; [reflexivity|].
      now constructor.
    + unfold instance_record in Hr. rewrite Htags in Hr. discriminate.
Qed.

(** When [get_instances] returns, the query was answered, the collection
    did not fail, and there is one record per instance, in order. *)
Lemma get_instances_Ret env key value state tr rs tr' :
  get_instances env key value state tr = (Ret rs, tr') ->
  exists yielded,
    instances_filter env tr (fltr_of key value state) = Ret (yielded, None)
    /\ Forall2 record_matches yielded rs.
Proof.
  unfold get_instances. fold (fltr_of key value state). intros H.
  apply bind_inv_Ret in H as (o & tr1 & Hq & H).
  destruct o as [[yielded failure]|]; [|discriminate].
  apply bind_inv_Ret in H as (results & tr2 & Hloop & H).
  destruct failure; [discriminate|].
  unfold ret in H. inversion H; subst.
  apply for_instances_Ret in Hloop as (new & -> & Hall).
  exists yielded. split; [|exact Hall].
  revert Hq. unfold_io.
  destruct (instances_filter env tr (fltr_of key value state)) as [c|e].
  - intros Hq; inversion Hq; subst. reflexivity.
  - destruct (issubclass e ClientError); [discriminate|].
    destruct (issubclass e Exception); discriminate.
Qed.

(** The requests for termination of a whole run, whatever its outcome. *)
Lemma main_terminations env py tr (Q : list string -> Prop) :
  Q [] ->
  (forall instances tr1 results tr2 l1,
     get_instances env "Name" ["egor*"] ["*"] (tr ++ [Log INFO "Started" []])
       = (Ret instances, tr1) ->
     for_probe env instances [] tr1 = (Ret results, tr2) ->
     l1 `prefix_of` (Result.instance_id <$> List.filter is_stopped results) ->
     Q l1) ->
  exists l1 l2,
    snapshots (main env py tr).2 = snapshots tr ++ l1
    /\ terminations (main env py tr).2 = terminations tr ++ l2
    /\ l2 `prefix_of` l1
    /\ Q l1.
Proof.
  intros HQ0 HQ.
  assert (Hnone : forall t : trace,
            snapshots t = snapshots tr -> terminations t = terminations tr ->
            exists l1 l2,
              snapshots t = snapshots tr ++ l1
              /\ terminations t = terminations tr ++ l2
              /\ l2 `prefix_of` l1 /\ Q l1).
  { intros t Hs Ht. exists [], []. rewrite Hs, Ht, !app_nil_r.
    repeat split; auto. }
  unfold main. rewrite bind_snd. cbn [logger emit].
  assert (Hs0 : snapshots (tr ++ [Log INFO "Started" []]) = snapshots tr)
    by proj_trace.
  assert (Ht0 : terminations (tr ++ [Log INFO "Started" []]) = terminations tr)
    by proj_trace.
  rewrite bind_snd.
  destruct (emits_keeps_actuations is_listing_event
              (get_instances env "Name" ["egor*"] ["*"])
              (tr ++ [Log INFO "Started" []])) as (Hs1 & Ht1).
  { intros ev; destruct ev; cbn; auto; discriminate. }
  { apply emits_get_instances. }
  destruct (get_instances env "Name" ["egor*"] ["*"]
              (tr ++ [Log INFO "Started" []]))
    as [[instances|e] tr1] eqn:Hg; cbn [snd] in Hs1, Ht1; cbv beta iota;
    [|apply Hnone; congruence].
  rewrite bind_snd.
  destruct (emits_keeps_actuations is_probe_event
              (for_probe env instances []) tr1) as (Hs2 & Ht2).
  { intros ev; destruct ev; cbn; auto; discriminate. }
  { apply emits_for_probe. }
  destruct (for_probe env instances [] tr1) as [[results|e] tr2] eqn:Hp;
    cbn [snd] in Hs2, Ht2; cbv beta iota; [|apply Hnone; congruence].
  rewrite bind_snd.
  destruct (for_retire_any env results [] tr2) as (l1 & l2 & Hs3 & Ht3 & H21 & H1).
  assert (Hsome : forall t : trace,
            snapshots t = snapshots (for_retire env results [] tr2).2 ->
            terminations t = terminations (for_retire env results [] tr2).2 ->
            exists k1 k2,
              snapshots t = snapshots tr ++ k1
              /\ terminations t = terminations tr ++ k2
              /\ k2 `prefix_of` k1 /\ Q k1).
  { intros t Hs Ht. exists l1, l2. rewrite Hs, Ht, Hs3, Ht3.
    split; [congruence|]. split; [congruence|]. split; [exact H21|].
    eapply HQ; eauto. }
  destruct (for_retire env results [] tr2) as [[results'|e] tr3] eqn:Hr;
    cbn [snd] in *; cbv beta iota; [|now apply Hsome].
  rewrite bind_snd.
  destruct (emits_keeps_actuations is_prune_event (clenup_old_ami env 7) tr3)
    as (Hs4 & Ht4).
  { intros ev; destruct ev; cbn; auto; discriminate. }
  { apply emits_clenup_old_ami. }
  destruct (clenup_old_ami env 7 tr3) as [[v|e] tr4] eqn:Hc;
    cbn [snd] in Hs4, Ht4; cbv beta iota; [|now apply Hsome].
  cbn zeta. rewrite bind_snd. unfold lift at 1.
  match goal with
  | |- context [(format_as_table ?p ?a ?b ?c ?d ?o ?f).1] =>
      destruct (format_as_table p a b c d o f).1 as [table|err]
  end; cbv beta iota; [|now apply Hsome].
  apply Hsome; unfold_io; cbn; rewrite <- ?Hs4, <- ?Ht4; proj_trace.
Qed.

(** [main] terminates only what the provider listed as stopped: whether
    the run ends or raises, an instance for which it requests
    termination is an instance that the listing query returned with the
    state [stopped], and an image of it was requested before. *)
Theorem main_terminates_only_stopped (env : Env) (py : python) (tr : trace)
    (i : string) :
  In i (terminations (main env py tr).2) ->
  In i (terminations tr)
  \/ (In i (snapshots (main env py tr).2)
      /\ exists yielded instance,
           instances_filter env (tr ++ [Log INFO "Started" []])
             (fltr_of "Name" ["egor*"] ["*"]) = Ret (yielded, None)
           /\ In instance yielded
           /\ i_id instance = i
           /\ i_state_Name instance = "stopped").
Proof.
  intros Hin.
  destruct (main_terminations env py tr
              (fun l1 => forall i, In i l1 ->
                 exists yielded instance,
                   instances_filter env (tr ++ [Log INFO "Started" []])
                     (fltr_of "Name" ["egor*"] ["*"]) = Ret (yielded, None)
                   /\ In instance yielded
                   /\ i_id instance = i
                   /\ i_state_Name instance = "stopped"))
    as (l1 & l2 & Hs & Ht & [k ->] & HQ).
  - intros j [].
  - intros instances tr1 results tr2 l1 Hg Hp [k Hk] j Hj.
    apply get_instances_Ret in Hg as (yielded & Hq & Hy).
    apply for_probe_Ret in Hp as (new & -> & _ & _ & Hn). cbn in Hk.
    assert (Hjn : In j (Result.instance_id <$> List.filter is_stopped new)).
    { rewrite Hk. apply in_app_iff. now left. }
    apply list_elem_of_In, list_elem_of_fmap in Hjn as (r & -> & Hr).
    apply list_elem_of_In, filter_In in Hr as (Hr & Hstop).
    apply is_stopped_iff in Hstop as (_ & _ & Hstate).
    apply list_elem_of_In, list_elem_of_lookup_1 in Hr as [n Hr].
    destruct (Forall2_lookup_r _ _ _ _ _ Hn Hr) as (inst & Hinst & Hid & Hst).
    destruct (Forall2_lookup_r _ _ _ _ _ Hy Hinst)
      as (instance & Hinstance & _ & _ & Hid' & _ & Hst').
    exists yielded, instance. repeat split; trivial.
    + apply list_elem_of_In. eapply list_elem_of_lookup_2; eauto.
    + congruence.
    + congruence.
  - rewrite Ht in Hin. apply in_app_iff in Hin as [Hin|Hin]; [now left|right].
    split.
    + rewrite Hs. apply in_app_iff. right. apply in_app_iff. now left.
    + apply HQ. apply in_app_iff. now left.
Qed.

Lemma main_terminates_only_stopped_witness :
  In "i-0a1" (terminations [])
  \/ (In "i-0a1" (snapshots (main env_one_stopped Py3 []).2)
      /\ exists yielded instance,
           instances_filter env_one_stopped ([] ++ [Log INFO "Started" []])
             (fltr_of "Name" ["egor*"] ["*"]) = Ret (yielded, None)
           /\ In instance yielded
           /\ i_id instance = "i-0a1"
           /\ i_state_Name instance = "stopped").
Proof.
  apply (main_terminates_only_stopped env_one_stopped Py3 [] "i-0a1").
  vm_compute. left. reflexivity.
Defined.

(** ** The retention pruner *)

(** One image, whatever the outcome: a deregistration is requested at
    most once, and only for an image older than the cutoff. *)
Lemma clenup_body_any env days utc image acc tr :
  let want := if older env utc days image then [ImageId image] else [] in
  exists l,
    deregistered (clenup_body env days utc image acc tr).2 = deregistered tr ++ l
    /\ l `prefix_of` want
    /\ (forall acc', (clenup_body env days utc image acc tr).1 = Ret (inl acc') ->
        l = want).
Proof.
  cbn zeta. unfold older, clenup_body, cutoff. unfold_io.
  destruct (strptime env _) as [c|e].
  2:{ exists []. cbn. rewrite app_nil_r.
      split; [reflexivity|]. split; [apply prefix_nil | discriminate]. }
  destruct (timedelta_days days) as [td|e].
  2:{ exists []. cbn. rewrite app_nil_r.
      split; [reflexivity|]. split; [apply prefix_nil | discriminate]. }
  destruct (datetime_sub utc td) as [d|e].
  2:{ exists []. cbn. rewrite app_nil_r.
      split; [reflexivity|]. split; [apply prefix_nil | discriminate]. }
  destruct (c <? d).
  - exists [ImageId image].
    destruct (deregister_image env tr (ImageId image)) as [[]|e]; cbn.
    + rewrite deregistered_app. repeat split; reflexivity.
    + destruct (issubclass e ClientError); cbn;
        rewrite ?deregistered_app; cbn; rewrite ?app_nil_r;
        repeat split; reflexivity.
  - exists []. cbn. rewrite deregistered_app. cbn.
    repeat split; reflexivity.
Qed.

Lemma for_images_any env days utc images :
  forall acc tr,
  exists l,
    deregistered (for_images env days utc images acc tr).2 = deregistered tr ++ l
    /\ l `prefix_of` (ImageId <$> List.filter (older env utc days) images).
Proof.
  induction images as [|image rest IH]; intros acc tr.
  - exists []. cbn. rewrite app_nil_r. split; reflexivity.
  - destruct (clenup_body_any env days utc image acc tr) as (l & Hl & Hpre & Hret).
    cbn [for_images]. rewrite bind_snd.
    destruct (clenup_body env days utc image acc tr) as [[[acc'|v]|e] tr1] eqn:Hb;
      cbn [snd fst] in Hl, Hret; cbv beta iota.
    + rewrite (Hret acc' eq_refl) in Hl.
      destruct (IH acc' tr1) as (k & Hk & Hkpre).
      exists ((if older env utc days image then [ImageId image] else []) ++ k).
      rewrite Hk, Hl, <- app_assoc. split; [reflexivity|].
      cbn [List.filter]. destruct (older env utc days image); cbn; [|exact Hkpre].
      now apply (prefix_app [_]).
    + exists l. cbn. split; [exact Hl|]. etransitivity; [exact Hpre|].
      cbn [List.filter]. destruct (older env utc days image); cbn.
      * apply (prefix_app_r [_] [_] _). reflexivity.
      * apply prefix_nil.
    + exists l. split; [exact Hl|]. etransitivity; [exact Hpre|].
      cbn [List.filter]. destruct (older env utc days image); cbn.
      * apply (prefix_app_r [_] [_] _). reflexivity.
      * apply prefix_nil.
Qed.

(** [clenup_old_ami] never deregisters an image that is not older than
    the cutoff: whether the pass returns its list, returns [False] or
    raises, the images it asked to deregister are the first ones, in
    the order of the listing, of the listed images whose creation time
    is strictly earlier than the clock reading minus [days]. *)
Theorem clenup_old_ami_deregisters_only_older (env : Env) (days : Z) (tr : trace) :
  exists l,
    deregistered (clenup_old_ami env days tr).2 = deregistered tr ++ l
    /\ (l = [] \/
        exists images,
          pass_images env days tr = Ret images
          /\ l `prefix_of`
               (ImageId <$>
                  List.filter (older env (pass_utc env days tr) days) images)).
Proof.
  rewrite clenup_old_ami_unfold.
  assert (Hstart : deregistered (pass_start days tr) = deregistered tr).
  { unfold pass_start. rewrite deregistered_app. cbn. apply app_nil_r. }
  destruct (pass_images env days tr) as [images|e].
  - destruct (for_images_any env days (pass_utc env days tr) images []
                (pass_start days tr)) as (l & Hl & Hpre).
    exists l. split; [|right; eauto].
    rewrite <- Hstart, <- Hl.
    destruct (for_images env days _ images [] _) as [[[acc|v]|e] tr1]; reflexivity.
  - exists []. rewrite app_nil_r. split; [exact Hstart | now left].
Qed.

(** With no image listed the pass returns the empty list and asks the
    provider for nothing more, whatever [days] is: the cutoff is
    computed inside the loop only. *)
Theorem clenup_old_ami_no_image (env : Env) (days : Z) (tr : trace) :
  pass_images env days tr = Ret [] ->
  clenup_old_ami env days tr = (Ret (PList []), pass_start days tr).
Proof. intros H. now rewrite clenup_old_ami_unfold, H. Qed.

Lemma clenup_old_ami_no_image_witness :
  clenup_old_ami env_fleet 1000000000000 [] =
    (Ret (PList []), pass_start 1000000000000 []).
Proof.
  apply (clenup_old_ami_no_image env_fleet 1000000000000 []). reflexivity.
Defined.

(** A creation date that [strptime] refuses ends the pass with the error
    of the parser, not with [False]: no list is returned, the images
    after it are not looked at, and the deregistrations made before it
    stay made. *)
Theorem clenup_old_ami_bad_date (env : Env) (days : Z) (tr tr1 : trace)
    (pre post : list Image) (image : Image) (done : list Img.t) (e : exc) :
  pass_images env days tr = Ret (pre ++ image :: post) ->
  for_images env days (pass_utc env days tr) pre [] (pass_start days tr)
    = (Ret (inl done), tr1) ->
  strptime env (drop_last 5 (CreationDate image)) = Raise e ->
  clenup_old_ami env days tr = (Raise e, tr1)
  /\ deregistered tr1 =
       deregistered tr ++
       (ImageId <$> List.filter (older env (pass_utc env days tr) days) pre).
Proof.
  intros Himg Hpre He. split.
  - rewrite clenup_old_ami_unfold, Himg.
    rewrite (for_images_app _ _ _ _ _ _ _ _ _ Hpre). cbn [for_images].
    assert (Hb : clenup_body env days (pass_utc env days tr) image done tr1
                 = (Raise e, tr1)).
    { unfold clenup_body. unfold_io. now rewrite He. }
    now rewrite (bind_Raise _ _ _ _ _ Hb).
  - apply for_images_inl in Hpre as (_ & Hd & _). rewrite Hd.
    unfold pass_start. rewrite deregistered_app. cbn. now rewrite app_nil_r.
Qed.

Lemma clenup_old_ami_bad_date_witness :
  clenup_old_ami env_prune_micro 7 [] =
    (Raise ValueError, pass_start 7 [] ++ [DeregisterImage "ami-9d" false])
  /\ deregistered (pass_start 7 [] ++ [DeregisterImage "ami-9d" false]) =
       deregistered [] ++
       (ImageId <$>
          List.filter (older env_prune_micro (pass_utc env_prune_micro 7 []) 7)
            [image_9d]).
Proof.
  apply (clenup_old_ami_bad_date env_prune_micro 7 []
           (pass_start 7 [] ++ [DeregisterImage "ami-9d" false])
           [image_9d] [image_8d] image_micro
           [image_record image_9d (Some "deregistered")] ValueError).
  - reflexivity.
  - vm_compute. reflexivity.
  - vm_compute. reflexivity.
Defined.

(** ** The report formatter *)

Lemma mapM_cases {S A B} (f : A -> M S B) (e0 : exc) l s :
  (forall x, pure_on (f x)) ->
  (forall x, In x l -> (exists y, (f x s).1 = Ret y) \/ (f x s).1 = Raise e0) ->
  mapM f l s = (Raise e0, s)
  \/ exists ys, mapM f l s = (Ret ys, s)
                /\ Forall2 (fun x y => (f x s).1 = Ret y) l ys.
Proof.
  intros Hp. induction l as [|x l IH]; intros Hf; cbn.
  - right. exists []. split; [reflexivity | constructor].
  - pose proof (Hp x s) as Hs. unfold bind.
    destruct (Hf x (or_introl eq_refl)) as [[y Hy]|He];
      destruct (f x s) as [[y'|e] s1] eqn:Efx; cbn in *; subst s1;
      try discriminate.
    + inversion Hy; subst y'.
      destruct IH as [E|(ys & E & Hall)]; [intros; apply Hf; now right| |].
      * left. now rewrite E.
      * right. exists (y :: ys). rewrite E. split; [reflexivity|].
        constructor; [now rewrite Efx | exact Hall].
    + left. congruence.
Qed.

Lemma getitem_cases {S} (d : dict) k (s : S) :
  (exists y, (getitem d k s).1 = Ret y) \/ (getitem d k s).1 = Raise KeyError.
Proof. unfold getitem. destruct (d !! k); cbn; eauto. Qed.

(** A column has a width unless a row lacks the key, which is a
    [KeyError], or the table is empty, which is a [ValueError]. *)
Lemma column_width_cases (table : list dict) key (h : heap) :
  (table = [] -> column_width table key h = (Raise ValueError, h))
  /\ (table <> [] -> Forall (fun row => is_Some (row !! key)) table ->
      exists w, column_width table key h = (Ret w, h))
  /\ (forall row, In row table -> row !! key = None ->
      column_width table key h = (Raise KeyError, h)).
Proof.
  unfold column_width.
  destruct (mapM_cases
              (fun column => v <- getitem column key ;;
                             ret (String.length (py_str v)))
              KeyError table h) as [E|(lens & E & Hall)].
  - intros x. apply pure_bind; [apply pure_getitem | intros; apply pure_ret].
  - intros row _. unfold bind, getitem.
    destruct (row !! key); cbn; eauto.
  - rewrite (bind_Raise _ _ _ _ _ E). split; [|split].
    + intros ->. discriminate.
    + intros _ Hyes. exfalso. revert E.
      induction Hyes as [|row t [v Hv] _ IH]; cbn.
      * discriminate.
      * unfold bind at 1 2. unfold getitem at 1. rewrite Hv. cbn.
        unfold bind at 1.
        destruct (mapM _ t h) as [[ys|e] s1] eqn:Et; [discriminate|].
        intros H; inversion H; subst. now apply IH.
    + reflexivity.
  - rewrite (bind_Ret _ _ _ _ _ E). split; [|split].
    + intros ->. inversion Hall. reflexivity.
    + intros Hne _. destruct Hall; [contradiction | eauto].
    + intros row Hin Hnone. exfalso.
      apply list_elem_of_In, list_elem_of_lookup_1 in Hin as [i Hi].
      destruct (Forall2_lookup_l _ _ _ _ _ Hall Hi) as (n & _ & Hn).
      unfold bind, getitem in Hn. rewrite Hnone in Hn. discriminate.
Qed.

Lemma insert_sorted_Permutation x l : Permutation (insert_sorted x l) (x :: l).
Proof.
  induction l as [|y l IH]; cbn; [reflexivity|].
  destruct (py_le x.1 y.1); [reflexivity|].
  rewrite IH. apply perm_swap.
Qed.

Lemma stable_sort_Permutation l : Permutation (stable_sort l) l.
Proof.
  induction l as [|x l IH]; cbn; [reflexivity|].
  rewrite insert_sorted_Permutation. now constructor.
Qed.

Lemma keyed_cases (data : list dict) key (h : heap) :
  mapM (fun d => k <- getitem d key ;; ret (k, d)) data h = (Raise KeyError, h)
  \/ exists keyed,
       mapM (fun d => k <- getitem d key ;; ret (k, d)) data h = (Ret keyed, h)
       /\ keyed.*2 = data
       /\ Forall (fun kd => kd.2 !! key = Some kd.1) keyed.
Proof.
  destruct (mapM_cases (fun d => k <- getitem d key ;; ret (k, d)) KeyError data h)
    as [E|(keyed & E & Hall)].
  - intros x. apply pure_bind; [apply pure_getitem | intros; apply pure_ret].
  - intros row _. unfold bind, getitem. destruct (row !! key); cbn; eauto.
  - now left.
  - right. exists keyed. split; [exact E|].
    clear E. induction Hall as [|d kd t ks Hkd Hall IH];
      [split; [reflexivity|constructor]|]. destruct IH as [IH1 IH2].
    unfold bind, getitem in Hkd. destruct (d !! key) as [v|] eqn:Hv; [|discriminate].
    cbn in Hkd. inversion Hkd; subst. cbn. split; [reflexivity|].
    constructor; [exact Hv | exact IH2].
Qed.

(** [sorted] fails by a [KeyError], when a row lacks the sort key, or,
    under Python 3 only, by the [TypeError] of a comparison; otherwise it
    returns the rows in another order: none is lost, none is added. *)
Lemma sorted_cases py (data : list dict) key reverse (h : heap) :
  sorted py data key reverse h = (Raise KeyError, h)
  \/ (py = Py3 /\ sorted py data key reverse h = (Raise TypeError, h))
  \/ exists rows', sorted py data key reverse h = (Ret rows', h)
                   /\ Permutation rows' data.
Proof.
  unfold sorted. destruct (keyed_cases data key h) as [E|(keyed & E & Hd & _)].
  - left. now rewrite (bind_Raise _ _ _ _ _ E).
  - right. rewrite (bind_Ret _ _ _ _ _ E). rewrite <- Hd.
    destruct (sortable py keyed.*1) eqn:Hs.
    + right. destruct reverse; eexists; (split; [reflexivity|]).
      * apply fmap_Permutation. rewrite <- Permutation_rev.
        rewrite stable_sort_Permutation. now rewrite <- Permutation_rev.
      * apply fmap_Permutation, stable_sort_Permutation.
    + left. split; [|reflexivity]. destruct py; [discriminate | reflexivity].
Qed.

(** The two stages of [format_as_table]: the rows are sorted, or kept;
    then the header rows are put in front of them, in the list that is
    then rendered. *)
Lemma format_as_table_stages py data keys header sort_by_key reverse h rows :
  h !! data = Some rows ->
  match sorted_or_same py rows sort_by_key reverse h with
  | Raise e =>
      (format_as_table py data keys header sort_by_key reverse h).1 = Raise e
  | Ret rows' =>
      exists d' h2,
        h2 !! d' = Some (header_rows keys header ++ rows')
        /\ format_as_table py data keys header sort_by_key reverse h
           = render py d' keys h2
  end.
Proof.
  intros Hrows. unfold format_as_table, sorted_or_same.
  assert (Hload : load data h = (Ret rows, h)) by (unfold load; now rewrite Hrows).
  (* the header rows go into the list at [d] *)
  assert (Hhead : forall d (s : heap) rows',
    s !! d = Some rows' ->
    exists h2,
      h2 !! d = Some (header_rows keys header ++ rows')
      /\ (match header with
          | Some (name :: names) =>
              list_insert0 d
                (dict_zip keys ((fun name => str_mul "-" (String.length name))
                                <$> name :: names)) ;;;
              list_insert0 d (dict_zip keys (name :: names))
          | _ => ret tt
          end ;;; render py d keys) s = render py d keys h2).
  { intros d s rows' Hs. unfold header_rows.
    destruct header as [[|name names]|]; try (exists s; split; [exact Hs|reflexivity]).
    eexists. split; cycle 1.
    - unfold bind at 1 2. unfold list_insert0 at 1. rewrite Hs.
      unfold list_insert0 at 1. rewrite lookup_insert_eq. reflexivity.
    - rewrite lookup_insert_eq. reflexivity. }
  destruct sort_by_key as [key|].
  - cbn [truthy]. destruct (negb (String.eqb key "")).
    + pose proof (pure_sorted (S := heap) py rows key reverse h) as Hp.
      destruct (sorted py rows key reverse h) as [[rows'|e] h1] eqn:E;
        cbn in Hp; subst h1; cbn [fst].
      * destruct (Hhead (fresh (dom h)) (<[fresh (dom h) := rows']> h) rows')
          as (h2 & Hh2 & Eq); [apply lookup_insert_eq|].
        exists (fresh (dom h)), h2. split; [exact Hh2|].
        assert (HA : (rows0 <- load data ;;
                      rows1 <- sorted py rows0 key reverse ;; alloc rows1) h
                     = (Ret (fresh (dom h)), <[fresh (dom h) := rows']> h)).
        { rewrite (bind_Ret _ _ _ _ _ Hload).
          now rewrite (bind_Ret _ _ _ _ _ E). }
        rewrite (bind_Ret _ _ _ _ _ HA). exact Eq.
      * assert (HA : (rows0 <- load data ;;
                      rows1 <- sorted py rows0 key reverse ;; alloc rows1) h
                     = (Raise e, h)).
        { rewrite (bind_Ret _ _ _ _ _ Hload).
          now rewrite (bind_Raise _ _ _ _ _ E). }
        now rewrite (bind_Raise _ _ _ _ _ HA).
    + destruct (Hhead data h rows Hrows) as (h2 & Hh2 & Eq).
      exists data, h2. split; [exact Hh2|]. rewrite bind_ret_l. exact Eq.
  - destruct (Hhead data h rows Hrows) as (h2 & Hh2 & Eq).
    exists data, h2. split; [exact Hh2|]. rewrite bind_ret_l. exact Eq.
Qed.

Lemma mapM_Raise {S A B} (f : A -> M S B) (e0 : exc) l s x :
  (forall x, pure_on (f x)) ->
  (forall x, In x l -> (exists y, (f x s).1 = Ret y) \/ (f x s).1 = Raise e0) ->
  In x l -> (f x s).1 = Raise e0 ->
  mapM f l s = (Raise e0, s).
Proof.
  intros Hp Hf Hin Hx.
  destruct (mapM_cases f e0 l s Hp Hf) as [E|(ys & _ & Hall)]; [exact E|].
  apply list_elem_of_In, list_elem_of_lookup_1 in Hin as [i Hi].
  destruct (Forall2_lookup_l _ _ _ _ _ Hall Hi) as (y & _ & Hy). congruence.
Qed.

(** Every column of a table that is not empty has a width or is a
    [KeyError]. *)
Lemma column_width_Ret_or_KeyError (table : list dict) key (h : heap) :
  table <> [] ->
  (exists w, (column_width table key h).1 = Ret w)
  \/ (column_width table key h).1 = Raise KeyError.
Proof.
  intros Hne. destruct (column_width_cases table key h) as (_ & Hok & Hbad).
  destruct (decide (Forall (fun row => is_Some (row !! key)) table)) as [Hall|Hno].
  - left. destruct (Hok Hne Hall) as [w ->]. eauto.
  - right. apply not_Forall_Exists in Hno; [|apply _].
    apply Exists_exists in Hno as (row & Hin & Hrow).
    rewrite (Hbad row); [reflexivity | now apply list_elem_of_In |].
    apply eq_None_not_Some. exact Hrow.
Qed.

(** A row without one of the keys: [format_as_table] returns no table.
    It raises [KeyError], unless the sort of line 275 fails first, which
    it does under Python 3 only, by the [TypeError] of a comparison. *)
Theorem format_as_table_missing_key (py : python) (data : loc)
    (keys : list string) (header : option (list string))
    (sort_by_key : option string) (reverse : bool) (h : heap)
    (rows : list dict) (row : dict) (key : string) :
  h !! data = Some rows ->
  In row rows ->
  In key keys ->
  row !! key = None ->
  (format_as_table py data keys header sort_by_key reverse h).1 = Raise KeyError
  \/ (py = Py3
      /\ sorted_or_same py rows sort_by_key reverse h = Raise TypeError
      /\ (format_as_table py data keys header sort_by_key reverse h).1
         = Raise TypeError).
Proof.
  intros Hrows Hrow Hkey Hnone.
  pose proof (format_as_table_stages py data keys header sort_by_key reverse h
                rows Hrows) as Hst.
  assert (Hsort : sorted_or_same py rows sort_by_key reverse h = Raise KeyError
                  \/ (py = Py3
                      /\ sorted_or_same py rows sort_by_key reverse h
                         = Raise TypeError)
                  \/ exists rows', sorted_or_same py rows sort_by_key reverse h
                                   = Ret rows' /\ In row rows').
  { unfold sorted_or_same. destruct sort_by_key as [k|]; [|eauto].
    destruct (truthy (VStr k)); [|eauto].
    destruct (sorted_cases py rows k reverse h)
      as [E|[[Hpy E]|(rows' & E & Hperm)]]; rewrite E; cbn; auto.
    right. right. exists rows'. split; [reflexivity|].
    eapply Permutation_in; [symmetry; exact Hperm | exact Hrow]. }
  destruct Hsort as [E|[[Hpy E]|(rows' & E & Hin)]]; rewrite E in Hst;
    [now left | right; auto |].
  left. destruct Hst as (d' & h2 & Hh2 & ->).
  assert (Hload : load d' h2 = (Ret (header_rows keys header ++ rows'), h2))
    by (unfold load; now rewrite Hh2).
  rewrite (bind_Ret _ _ _ _ _ Hload).
  set (table := header_rows keys header ++ rows') in *.
  assert (Hne : table <> []).
  { intros E0. assert (In row table) as Hi by (apply in_app_iff; now right).
    rewrite E0 in Hi. destruct Hi. }
  assert (Hw : mapM (column_width table) keys h2 = (Raise KeyError, h2)).
  { apply (mapM_Raise _ _ _ _ key).
    - intros k. apply pure_column_width.
    - intros k _. now apply column_width_Ret_or_KeyError.
    - exact Hkey.
    - destruct (column_width_cases table key h2) as (_ & _ & Hbad).
      rewrite (Hbad row); [reflexivity | apply in_app_iff; now right | exact Hnone]. }
  now rewrite (bind_Raise _ _ _ _ _ Hw).
Qed.

Lemma format_as_table_missing_key_witness :
  let h : heap := {[ 1%positive := [row_no_b; row_none] ]} in
  (format_as_table Py3 1%positive ["a"; "b"] None (Some "a") false h).1
  = Raise KeyError
  \/ (Py3 = Py3
      /\ sorted_or_same Py3 [row_no_b; row_none] (Some "a") false h
         = Raise TypeError
      /\ (format_as_table Py3 1%positive ["a"; "b"] None (Some "a") false h).1
         = Raise TypeError).
Proof.
  apply (format_as_table_missing_key Py3 1%positive ["a"; "b"] None
           (Some "a") false {[ 1%positive := [row_no_b; row_none] ]}
           [row_no_b; row_none] row_no_b "b").
  - reflexivity.
  - left. reflexivity.
  - right. left. reflexivity.
  - reflexivity.
Defined.

(** The same rows under the two interpreters: the key of the sort is a
    string in one row and [None] in the other. *)
Example format_as_table_missing_key_both :
  let h : heap := {[ 1%positive := [row_no_b; row_none] ]} in
  (format_as_table Py2 1%positive ["a"; "b"] None (Some "a") false h).1
  = Raise KeyError
  /\ (format_as_table Py3 1%positive ["a"; "b"] None (Some "a") false h).1
     = Raise TypeError.
Proof. vm_compute. split; reflexivity. Qed.

(** An empty list of rows and no header: [format_as_table] returns the
    empty string when there is no key, and raises [ValueError], the
    [max] of an empty sequence, when there is one. *)
Theorem format_as_table_empty (py : python) (data : loc) (keys : list string)
    (header : option (list string)) (sort_by_key : option string)
    (reverse : bool) (h : heap) :
  h !! data = Some [] ->
  header = None \/ header = Some [] ->
  (format_as_table py data keys header sort_by_key reverse h).1 =
    match keys with
    | [] => Ret ""
    | _ :: _ => Raise ValueError
    end.
Proof.
  intros Hrows Hheader.
  pose proof (format_as_table_stages py data keys header sort_by_key reverse h
                [] Hrows) as Hst.
  assert (Hsort : sorted_or_same py [] sort_by_key reverse h = Ret []).
  { unfold sorted_or_same. destruct sort_by_key as [k|]; [|reflexivity].
    destruct (truthy (VStr k)); [|reflexivity]. now destruct py, reverse. }
  rewrite Hsort in Hst. destruct Hst as (d' & h2 & Hh2 & ->).
  assert (Hnil : header_rows keys header ++ [] = []).
  { destruct Hheader as [-> | ->]; reflexivity. }
  rewrite Hnil in Hh2.
  assert (Hload : load d' h2 = (Ret [], h2)) by (unfold load; now rewrite Hh2).
  rewrite (bind_Ret _ _ _ _ _ Hload).
  destruct keys as [|k ks]; reflexivity.
Qed.

Lemma format_as_table_empty_witness :
  (format_as_table Py3 1%positive ["a"; "b"] None (Some "a") true
     empty_list_heap).1 =
    Raise ValueError.
Proof.
  apply (format_as_table_empty Py3 1%positive ["a"; "b"] None (Some "a") true
           empty_list_heap).
  - reflexivity.
  - left. reflexivity.
Defined.

Lemma format_as_table_keeps_rows_witness :
  (format_as_table Py3 1%positive ["a"; "b"] (Some ["A"; "B"]) (Some "a") true
     caller_heap).2 !! 1%positive = Some [row_x; row_zzz].
Proof.
  apply (format_as_table_keeps_rows Py3 1%positive ["a"; "b"]
           (Some ["A"; "B"]) (Some "a") true caller_heap [row_x; row_zzz]).
  - reflexivity.
  - left. exists "a". split; [reflexivity | discriminate].
Defined.

(** The width of a column is the greatest length of [str] of its field
    over the rows of the table, header and divider rows included: no row
    is wider and one row is as wide. *)
Theorem column_width_is_max (table : list dict) (key : string) (h h' : heap)
    (w : nat) :
  column_width table key h = (Ret w, h') ->
  (forall row, In row table ->
     exists v, row !! key = Some v /\ (String.length (py_str v) <= w)%nat)
  /\ (exists row v, In row table /\ row !! key = Some v
                    /\ String.length (py_str v) = w).
Proof. apply column_width_max. Qed.

Lemma column_width_is_max_witness :
  (forall row, In row [row_header; row_divider; row_zzz; row_x] ->
     exists v, row !! "a" = Some v /\ (String.length (py_str v) <= 3)%nat)
  /\ (exists row v, In row [row_header; row_divider; row_zzz; row_x]
                    /\ row !! "a" = Some v
                    /\ String.length (py_str v) = 3%nat).
Proof.
  apply (column_width_is_max [row_header; row_divider; row_zzz; row_x] "a"
           caller_heap caller_heap 3).
  vm_compute. reflexivity.
Defined.

(** ** The inventory lister: tags that are present *)

Lemma read_tags_app l1 l2 n f :
  read_tags (l1 ++ l2) n f =
    read_tags l2 (read_tags l1 n f).1 (read_tags l1 n f).2.
Proof.
  revert n f. induction l1 as [|t l1 IH]; intros n f; cbn; [reflexivity|].
  apply IH.
Qed.

Lemma read_tags_keeps_Name l n f :
  (forall u, In u l -> Key u <> "Name") -> (read_tags l n f).1 = n.
Proof.
  revert n f. induction l as [|t l IH]; intros n f H; cbn; [reflexivity|].
  destruct (String.eqb_spec (Key t) "Name") as [E|_].
  - exfalso. apply (H t); [now left | exact E].
  - apply IH. intros u Hu. apply H. now right.
Qed.

Lemma read_tags_keeps_FQDN l n f :
  (forall u, In u l -> Key u <> "FQDN") -> (read_tags l n f).2 = f.
Proof.
  revert n f. induction l as [|t l IH]; intros n f H; cbn; [reflexivity|].
  destruct (String.eqb_spec (Key t) "FQDN") as [E|_].
  - exfalso. apply (H t); [now left | exact E].
  - apply IH. intros u Hu. apply H. now right.
Qed.

(** The name of a record is the value of the last tag of key [Name] in
    the tag list of the instance, and its fqdn the value of the last tag
    of key [FQDN]: a later tag of the same key overrides an earlier one. *)
Theorem instance_record_last_tag (instance : Instance) (pre post : list Tag)
    (t : Tag) (tr : trace) :
  i_tags instance = Some (pre ++ t :: post) ->
  (forall u, In u post -> Key u <> Key t) ->
  exists r,
    instance_record instance tr = (Ret r, tr)
    /\ (Key t = "Name" -> Inst.instance_name r = Some (Value t))
    /\ (Key t = "FQDN" -> Inst.instance_fqdn r = Some (Value t)).
Proof.
  intros Htags Hpost. unfold instance_record. rewrite Htags.
  destruct (read_tags (pre ++ t :: post) None None) as [n f] eqn:E.
  eexists. split; [reflexivity|]. cbn.
  rewrite read_tags_app in E. cbn [read_tags] in E. split; intros Hk.
  - change n with (n, f).1. rewrite <- E.
    rewrite read_tags_keeps_Name by (intros u Hu; rewrite <- Hk; auto).
    rewrite Hk. reflexivity.
  - change f with (n, f).2. rewrite <- E.
    rewrite read_tags_keeps_FQDN by (intros u Hu; rewrite <- Hk; auto).
    rewrite Hk. cbn. destruct (String.eqb _ "Name"); reflexivity.
Qed.

Lemma instance_record_last_tag_witness :
  exists r,
    instance_record instance_renamed [] = (Ret r, [])
    /\ (Key {| Key := "Name"; Value := "egor-new" |} = "Name" ->
        Inst.instance_name r = Some (Value {| Key := "Name"; Value := "egor-new" |}))
    /\ (Key {| Key := "Name"; Value := "egor-new" |} = "FQDN" ->
        Inst.instance_fqdn r = Some (Value {| Key := "Name"; Value := "egor-new" |})).
Proof.
  apply (instance_record_last_tag instance_renamed
           [{| Key := "Name"; Value := "egor-old" |};
            {| Key := "FQDN"; Value := "web.example.org" |}]
           [] {| Key := "Name"; Value := "egor-new" |} []).
  - reflexivity.
  - intros u [].
Defined.

(** ** The HTTP probe: what its arguments do not change *)

(** [get_http_status_code] uses its port only to choose the scheme and
    never reads [max_redirects]: the address has no port in it, so any
    port other than 443 gives the request of port 80, and the session
    always follows at most 3 redirections. *)
Theorem get_http_status_code_unused_arguments (env : Env) (host : option string)
    (port max_redirects max_redirects' : Z) (tr : trace) :
  port <> 443 ->
  get_http_status_code env host port max_redirects tr
  = get_http_status_code env host 80 max_redirects' tr
  /\ get_http_status_code env host 443 max_redirects tr
     = get_http_status_code env host 443 max_redirects' tr
  /\ forall url m c r a,
       In (SessionHead url m c r a)
          (get_http_status_code env host port max_redirects tr).2 ->
       In (SessionHead url m c r a) tr
       \/ (m = 3 /\ exists h, host = Some h /\ url = "http://" +:+ h).
Proof.
  intros Hport. unfold get_http_status_code.
  destruct (Z.eqb_spec port 443) as [|_]; [contradiction|].
  split; [reflexivity|]. split; [reflexivity|].
  intros url m c r a. unfold str_add. unfold_io. cbn.
  destruct host as [h|]; cbn.
  - intros H; crunch; cbn in H; rewrite ?in_app_iff in H; cbn in H;
      repeat match goal with
             | H : _ \/ _ |- _ => destruct H
             | H : False |- _ => destruct H
             end;
      try discriminate; try (left; assumption);
      match goal with
      | H : SessionHead _ _ _ _ _ = SessionHead _ _ _ _ _ |- _ =>
          inversion H; subst; right; eauto
      end.
  - intros H; crunch; cbn in H; rewrite ?in_app_iff in H; cbn in H;
      repeat match goal with
             | H : _ \/ _ |- _ => destruct H
             | H : False |- _ => destruct H
             end;
      try discriminate; left; assumption.
Qed.

Lemma get_http_status_code_unused_arguments_witness :
  get_http_status_code env_up (Some "example.org") 8080 3 []
  = get_http_status_code env_up (Some "example.org") 80 10 []
  /\ get_http_status_code env_up (Some "example.org") 443 3 []
     = get_http_status_code env_up (Some "example.org") 443 10 []
  /\ forall url m c r a,
       In (SessionHead url m c r a)
          (get_http_status_code env_up (Some "example.org") 8080 3 []).2 ->
       In (SessionHead url m c r a) []
       \/ (m = 3 /\ exists h, Some "example.org" = Some h /\ url = "http://" +:+ h).
Proof.
  apply (get_http_status_code_unused_arguments env_up (Some "example.org")
           8080 3 10 []).
  lia.
Defined.

(** ** The report formatter: the text of the table *)

Lemma str_length_app a b :
  String.length (a +:+ b) = (String.length a + String.length b)%nat.
Proof.
  induction a as [|c a IH]; [reflexivity|].
  change (S (String.length (a +:+ b)) = S (String.length a + String.length b)).
  f_equal. exact IH.
Qed.

Lemma str_mul_length c n : String.length (str_mul c n) = n.
Proof.
  induction n as [|n IH]; [reflexivity|].
  change (S (String.length (str_mul c n)) = S n). f_equal. exact IH.
Qed.

Lemma ljust_length w v :
  (String.length (py_str v) <= w)%nat -> String.length (ljust w v) = w.
Proof. intros H. unfold ljust. rewrite str_length_app, str_mul_length. lia. Qed.

Lemma concat_length sep l :
  String.length (String.concat sep l) =
    (sum_list (String.length <$> l) + String.length sep * (length l - 1))%nat.
Proof.
  induction l as [|x [|y l] IH].
  - cbn. lia.
  - cbn. lia.
  - change (String.concat sep (x :: y :: l))
      with (x +:+ sep +:+ String.concat sep (y :: l)).
    rewrite !str_length_app, IH. cbn [fmap list_fmap sum_list sum_list_with length].
    replace (S (S (length l)) - 1)%nat with (S (length l)) by lia.
    replace (S (length l) - 1)%nat with (length l) by lia.
    rewrite Nat.mul_succ_r. unfold id. lia.
Qed.

Lemma mapM_inv {S A B} (f : A -> M S B) l :
  forall s ys s',
  mapM f l s = (Ret ys, s') ->
  Forall2 (fun x y => exists s1 s2, f x s1 = (Ret y, s2)) l ys.
Proof.
  induction l as [|x l IH]; intros s ys s'; cbn.
  - intros H; inversion H. constructor.
  - intros H. apply bind_inv_Ret in H as (y & s1 & Hy & H).
    apply bind_inv_Ret in H as (ys0 & s2 & Hys & H).
    unfold ret in H. inversion H; subst. constructor; eauto.
Qed.

(** The cells of a row that [format_row] returns. *)
Lemma format_row_text {S} n pairs (row : dict) (s s' : S) line :
  format_row n pairs row s = (Ret line, s') ->
  line = String.concat " "
           ((fun kw : string * nat => ljust kw.2 (key_of kw.1 row)) <$> pairs)
         +:+ newline
  /\ length pairs = n.
Proof.
  unfold format_row. intros H.
  apply bind_inv_Ret in H as (cells & s1 & Hcells & H).
  destruct (Nat.eqb_spec (length cells) n) as [Hn|Hn]; [|discriminate].
  unfold ret in H. inversion H; subst. clear H.
  apply mapM_inv in Hcells.
  assert (E : cells
              = (fun kw : string * nat => ljust kw.2 (key_of kw.1 row))
                <$> pairs).
  { induction Hcells as [|[k w] cell ps cs (t1 & t2 & Hc) _ IH];
      [reflexivity|].
    cbn. rewrite <- IH. f_equal.
    unfold bind, getitem, key_of in *. cbn in Hc.
    destruct (row !! k) as [v|]; [|discriminate].
    cbn in Hc. inversion Hc. reflexivity. }
  split; [now rewrite E|].
  rewrite E. now rewrite length_fmap.
Qed.

(** The lines that the loop of lines 304-311 returns: under either
    interpreter every row is rendered with all the pairs. *)
Lemma format_rows_text {S} py n (table : list dict) :
  forall pairs (s s' : S) lines,
  format_rows py n pairs table s = (Ret lines, s') ->
  lines = (fun row =>
             String.concat " "
               ((fun kw : string * nat => ljust kw.2 (key_of kw.1 row))
                <$> pairs)
             +:+ newline) <$> table
  /\ (table <> [] -> length pairs = n).
Proof.
  induction table as [|row rest IH]; intros pairs s s' lines; cbn.
  - intros H. inversion H. split; [reflexivity | congruence].
  - intros H. apply bind_inv_Ret in H as (line & s1 & Hline & H).
    apply bind_inv_Ret in H as (ls & s2 & Hls & H).
    unfold ret in H. inversion H; subst. clear H.
    destruct py; cbn [iterate fst snd] in *.
    + apply format_row_text in Hline as (-> & Hn).
      apply IH in Hls as (-> & _). split; [reflexivity | auto].
    + apply format_row_text in Hline as (-> & Hn).
      apply IH in Hls as (-> & Hrest). split; [|auto].
      f_equal. destruct rest as [|r2 rest]; [reflexivity|].
      assert (Hnil : pairs = []).
      { apply length_zero_iff_nil. rewrite Hn. symmetry. now apply Hrest. }
      now rewrite Hnil.
Qed.

(** A row of the table is as long as the widths of the columns say. *)
Lemma row_text_length (table : list dict) keys ws row :
  Forall2 (fun k w => exists t1 t2 : heap,
             column_width table k t1 = (Ret w, t2)) keys ws ->
  In row table ->
  String.length (row_text keys ws row)
  = (sum_list ws + Nat.max 1 (length keys))%nat.
Proof.
  intros Hw Hrow. unfold row_text.
  assert (Hlen : String.length
                 <$> ((fun kw : string * nat => ljust kw.2 (key_of kw.1 row))
                      <$> zip keys ws) = ws).
  { induction Hw as [|k w ks ws' (t1 & t2 & Hk) _ IH]; [reflexivity|].
    cbn. rewrite IH. f_equal.
    apply column_width_max in Hk as (Hle & _).
    destruct (Hle row Hrow) as (v & Hv & Hl).
    unfold key_of. rewrite Hv. cbn. now apply ljust_length. }
  rewrite str_length_app, concat_length, Hlen.
  rewrite length_fmap, length_zip_with.
  rewrite <- (Forall2_length _ _ _ Hw), Nat.min_id.
  cbn. destruct (length keys); cbn; lia.
Qed.

Lemma sorted_or_same_Permutation py rows sort_by_key reverse h rows' :
  sorted_or_same py rows sort_by_key reverse h = Ret rows' ->
  Permutation rows' rows.
Proof.
  unfold sorted_or_same. destruct sort_by_key as [k|].
  - destruct (truthy (VStr k)).
    + destruct (sorted_cases py rows k reverse h)
        as [E|[[_ E]|(r & E & Hperm)]];
        rewrite E; cbn; intros H; inversion H; subst. exact Hperm.
    + intros H; inversion H; subst. reflexivity.
  - intros H; inversion H; subst. reflexivity.
Qed.

(** The text of the table.  When [format_as_table] returns, the rows of
    the table are the header row and the divider row, if a header is
    given, then the rows of the caller, sorted if a sort key is given;
    the text is made of the lines of these rows, in this order, each
    field left-justified to the width that line 297 computes for its
    column; and the table is aligned: every line, its newline included,
    is as long as the sum of the widths plus the number of keys (plus one
    when there is no key). *)
Theorem format_as_table_aligned (py : python) (data : loc)
    (keys : list string) (header : option (list string))
    (sort_by_key : option string) (reverse : bool) (h h' : heap)
    (rows : list dict) (out : string) :
  h !! data = Some rows ->
  format_as_table py data keys header sort_by_key reverse h = (Ret out, h') ->
  exists rows' widths,
    sorted_or_same py rows sort_by_key reverse h = Ret rows'
    /\ mapM (column_width (header_rows keys header ++ rows')) keys h'
       = (Ret widths, h')
    /\ out = String.concat ""
               (row_text keys widths <$> header_rows keys header ++ rows')
    /\ Forall (fun row =>
         String.length (row_text keys widths row)
         = (sum_list widths + Nat.max 1 (length keys))%nat)
         (header_rows keys header ++ rows').
Proof.
  intros Hrows Hout.
  pose proof (format_as_table_stages py data keys header sort_by_key reverse h
                rows Hrows) as Hst.
  destruct (sorted_or_same py rows sort_by_key reverse h) as [rows'|e] eqn:Hs.
  2:{ rewrite Hout in Hst. discriminate. }
  destruct Hst as (d' & h2 & Hh2 & Eq). rewrite Eq in Hout.
  pose proof (pure_render py d' keys h2) as Hpure. rewrite Hout in Hpure.
  cbn in Hpure. rewrite Hpure in *. clear Hpure.
  apply bind_inv_Ret in Hout as (table & s1 & Hload & Hout).
  unfold load in Hload. rewrite Hh2 in Hload. injection Hload as <- <-.
  apply bind_inv_Ret in Hout as (ws & s2 & Hws & Hout).
  assert (s2 = h2) as ->.
  { pose proof (pure_mapM (column_width (S := heap)
                             (header_rows keys header ++ rows')) keys
                  (fun k => pure_column_width _ k) h2) as Hp.
    rewrite Hws in Hp. exact Hp. }
  cbn zeta in Hout.
  apply bind_inv_Ret in Hout as (lines & s3 & Hlines & Hout).
  unfold ret in Hout. injection Hout as <- <-.
  apply format_rows_text in Hlines as (-> & _).
  exists rows', ws. split; [reflexivity|]. split; [exact Hws|].
  split; [reflexivity|].
  apply Forall_forall. intros row Hin.
  apply (row_text_length (header_rows keys header ++ rows')).
  - exact (mapM_inv _ _ _ _ _ Hws).
  - now apply list_elem_of_In.
Qed.

Lemma format_as_table_aligned_witness :
  exists rows' widths,
    sorted_or_same Py2 [row_x; row_zzz] (Some "a") true caller_heap = Ret rows'
    /\ mapM (column_width (header_rows ["a"; "b"] (Some ["A"; "B"]) ++ rows'))
         ["a"; "b"] (<[2%positive := [row_header; row_divider; row_zzz; row_x]]>
                       caller_heap)
       = (Ret widths,
          <[2%positive := [row_header; row_divider; row_zzz; row_x]]> caller_heap)
    /\ unlines ["A   B "; "-   - "; "zzz w "; "x   yy"]
       = String.concat ""
           (row_text ["a"; "b"] widths
            <$> header_rows ["a"; "b"] (Some ["A"; "B"]) ++ rows')
    /\ Forall (fun row =>
         String.length (row_text ["a"; "b"] widths row)
         = (sum_list widths + Nat.max 1 (length ["a"; "b"]))%nat)
         (header_rows ["a"; "b"] (Some ["A"; "B"]) ++ rows').
Proof.
  apply (format_as_table_aligned Py2 1%positive ["a"; "b"] (Some ["A"; "B"])
           (Some "a") true caller_heap).
  - reflexivity.
  - vm_compute. reflexivity.
Defined.

(** ** The report under Python 3 *)

Lemma format_row_cases {S} n pairs (row : dict) (s : S) :
  (exists line, format_row n pairs row s = (Ret line, s))
  \/ format_row n pairs row s = (Raise KeyError, s)
  \/ format_row n pairs row s = (Raise TypeError, s).
Proof.
  unfold format_row.
  destruct (mapM_cases
              (fun pair : string * nat =>
                 v <- getitem row pair.1 ;; ret (ljust pair.2 v))
              KeyError pairs s) as [E|(cells & E & _)].
  - intros x. apply pure_bind; [apply pure_getitem | intros; apply pure_ret].
  - intros x _. unfold bind, getitem. destruct (row !! x.1); cbn; eauto.
  - right. left. now rewrite (bind_Raise _ _ _ _ _ E).
  - rewrite (bind_Ret _ _ _ _ _ E).
    destruct (Nat.eqb (length cells) n); [left; eauto | right; right; reflexivity].
Qed.

(** A row that finds the pairs exhausted has nothing to fill the fields
    of the format string with. *)
Lemma format_row_exhausted {S} n (row : dict) (s : S) :
  n <> 0%nat -> format_row n [] row s = (Raise TypeError, s).
Proof.
  intros Hn. unfold format_row, bind, ret, raise. cbn.
  destruct n; [contradiction | reflexivity].
Qed.

Lemma format_rows_py3_two {S} n pairs (r1 r2 : dict) rest (s : S) :
  n <> 0%nat ->
  format_rows Py3 n pairs (r1 :: r2 :: rest) s = (Raise KeyError, s)
  \/ format_rows Py3 n pairs (r1 :: r2 :: rest) s = (Raise TypeError, s).
Proof.
  intros Hn.
  assert (Hrest : format_rows Py3 n [] (r2 :: rest) s = (Raise TypeError, s)).
  { cbn [format_rows iterate fst snd].
    now rewrite (bind_Raise _ _ _ _ _ (format_row_exhausted n r2 s Hn)). }
  cbn [format_rows iterate fst snd] in *.
  destruct (format_row_cases n pairs r1 s) as [[line E]|[E|E]].
  - right. rewrite (bind_Ret _ _ _ _ _ E).
    now rewrite (bind_Raise _ _ _ _ _ Hrest).
  - left. now rewrite (bind_Raise _ _ _ _ _ E).
  - right. now rewrite (bind_Raise _ _ _ _ _ E).
Qed.

(** Under Python 3 a table that has a key and two rows or more, the
    header row and the divider row included, is never returned: the
    first row exhausts [key_width_pair] (line 300), and the second row
    is a [TypeError] at line 311, unless an error of the sort or a
    missing key ended the call before. *)
Theorem format_as_table_py3_raises (data : loc) (keys : list string)
    (header : option (list string)) (sort_by_key : option string)
    (reverse : bool) (h : heap) (rows : list dict) :
  h !! data = Some rows ->
  keys <> [] ->
  (2 <= length (header_rows keys header ++ rows))%nat ->
  (format_as_table Py3 data keys header sort_by_key reverse h).1
  = Raise KeyError
  \/ (format_as_table Py3 data keys header sort_by_key reverse h).1
     = Raise TypeError.
Proof.
  intros Hrows Hkeys Hlen.
  pose proof (format_as_table_stages Py3 data keys header sort_by_key reverse h
                rows Hrows) as Hst.
  destruct (sorted_or_same Py3 rows sort_by_key reverse h) as [rows'|e] eqn:Hs.
  - pose proof (sorted_or_same_Permutation _ _ _ _ _ _ Hs) as Hperm.
    destruct Hst as (d' & h2 & Hh2 & ->).
    assert (Hload : load d' h2 = (Ret (header_rows keys header ++ rows'), h2))
      by (unfold load; now rewrite Hh2).
    rewrite (bind_Ret _ _ _ _ _ Hload).
    assert (Hlen' : (2 <= length (header_rows keys header ++ rows'))%nat).
    { rewrite length_app in *. now rewrite (Permutation_length Hperm). }
    destruct (header_rows keys header ++ rows') as [|r1 [|r2 rest]] eqn:Et;
      cbn in Hlen'; try lia.
    destruct (mapM_cases (column_width (S := heap) (r1 :: r2 :: rest)) KeyError
                keys h2) as [E|(ws & E & _)].
    + intros k. apply pure_column_width.
    + intros k _. now apply column_width_Ret_or_KeyError.
    + left. now rewrite (bind_Raise _ _ _ _ _ E).
    + rewrite (bind_Ret _ _ _ _ _ E). cbn zeta.
      assert (Hn : length keys <> 0%nat)
        by (destruct keys; [contradiction | discriminate]).
      destruct (format_rows_py3_two (length keys) (zip keys ws) r1 r2 rest h2 Hn)
        as [E2|E2]; rewrite (bind_Raise _ _ _ _ _ E2); auto.
  - assert (He : e = KeyError \/ e = TypeError).
    { unfold sorted_or_same in Hs. destruct sort_by_key as [k|]; [|discriminate].
      destruct (truthy (VStr k)); [|discriminate].
      destruct (sorted_cases Py3 rows k reverse h)
        as [E|[[_ E]|(r & E & _)]]; rewrite E in Hs; cbn in Hs;
        inversion Hs; auto. }
    destruct He as [-> | ->]; auto.
Qed.

Lemma format_as_table_py3_raises_witness :
  (format_as_table Py3 1%positive ["a"; "b"] None None false caller_heap).1
  = Raise KeyError
  \/ (format_as_table Py3 1%positive ["a"; "b"] None None false caller_heap).1
     = Raise TypeError.
Proof.
  apply (format_as_table_py3_raises 1%positive ["a"; "b"] None None false
           caller_heap [row_x; row_zzz]).
  - reflexivity.
  - discriminate.
  - cbn. lia.
Defined.



(** ** The comparisons of a sort under Python 3 *)

Lemma orderable_common k v w :
  orderable k v = true -> orderable k w = true -> orderable v w = true.
Proof. destruct k, v, w; cbn; intros; try discriminate; reflexivity. Qed.

(** [sortable] does not depend on the pairs that the sort compares: a
    list of two keys or more passes exactly when any two of its keys,
    the same key taken twice included, can be compared. *)
Lemma sortable_py3 (keys : list pyvalue) :
  sortable Py3 keys = true
  <-> (length keys <= 1)%nat
      \/ (forall v w, In v keys -> In w keys -> orderable v w = true).
Proof.
  destruct keys as [|k [|k2 rest]].
  - split; [intros _; left; cbn; lia | reflexivity].
  - split; [intros _; left; cbn; lia | reflexivity].
  - change (sortable Py3 (k :: k2 :: rest))
      with (forallb (orderable k) (k :: k2 :: rest)).
    rewrite forallb_forall. split.
    + intros H. right. intros v w Hv Hw.
      apply (orderable_common k); now apply H.
    + intros [Hlen|H]; [cbn in Hlen; lia|].
      intros x Hx. apply H; [now left | exact Hx].
Qed.
